(** * twitter_api: pagination and aggregation

    A shallow embedding of [src/twitter_api.py]: the cursor loop of
    [search_tweets] and the grouping pipeline of [process_results] and
    [group_dataframe], with the properties of the specification stated
    and settled over it. *)

From Stdlib Require Import String Ascii ZArith Lia Permutation Sorted.
From stdpp Require Import gmap strings list pretty sorting.

Set Warnings "-register-all".
Open Scope string_scope.
Open Scope Z_scope.

(** ** Python values and exceptions *)

(** The values [json.loads] builds and the dicts tweepy hands out.  A
    dict keeps its insertion order, so it is an association list read by
    its first binding.  JSON numbers are integers here: at every
    operation of this program a float behaves as an integer does. *)
Inductive pyval : Type :=
  | PNone
  | PBool (b : bool)
  | PInt (z : Z)
  | PStr (s : string)
  | PList (l : list pyval)
  | PDict (d : list (string * pyval)).

Abbreviation dict := (list (string * pyval)).

Inductive exn : Type :=
  | AttributeError
  | KeyError
  | TypeError
  | JSONDecodeError
  | FileNotFoundError.

(** How a call ends.  [Unmodelled] marks the one place where the
    embedding stops short of the libraries: a pandas column that is
    grouped on or reduced with [max] and holds a cell that is not a
    [str].  What pandas does there (null keys are dropped, numeric
    columns get a numeric dtype, mixed cells fail to compare) is not
    part of the model, and no statement is made about such runs. *)
Inductive result (A : Type) : Type :=
  | Ok (a : A)
  | Raise (e : exn)
  | Unmodelled.
Arguments Ok {A} a.
Arguments Raise {A} e.
Arguments Unmodelled {A}.

(** Statements in sequence: the first exception ends the call. *)
Global Instance result_bind : MBind result := fun A B k r =>
  match r with
  | Ok a => k a
  | Raise e => Raise e
  | Unmodelled => Unmodelled
  end.

(** [d.get(k)] on a dict, before the default is applied. *)
Fixpoint dict_lookup (k : string) (d : dict) : option pyval :=
  match d with
  | [] => None
  | (k', v) :: d' => if String.eqb k k' then Some v else dict_lookup k d'
  end.

(** [d[k] = v]: an existing key keeps its place, a new one goes last. *)
Fixpoint dict_set (k : string) (v : pyval) (d : dict) : dict :=
  match d with
  | [] => [(k, v)]
  | (k', v') :: d' =>
      if String.eqb k k' then (k, v) :: d' else (k', v') :: dict_set k v d'
  end.

(** ** search_tweets *)

Module Pagination.

(** A pagination token is a [str], or Python's [None]. *)
Definition Token : Type := option string.

Definition token_val (t : Token) : pyval :=
  match t with
  | None => PNone
  | Some s => PStr s
  end.

(** One element of [response.data]: an object with a [.data] dict, or one
    without that attribute. *)
Inductive Result : Type :=
  | NoData
  | Tweet (data : dict).

(** [response.data]: the attribute can be missing, be [None] (what tweepy
    gives for a page without tweets) or be a list of results. *)
Inductive ResponseData : Type :=
  | DataMissing
  | DataNone
  | DataList (results : list Result).

(** What [client.get_users_tweets] returns.  [meta] is [None] when the
    object has no such attribute; of the entries of the [meta] dict only
    [next_token] is ever read. *)
Record Response : Type := mkResponse {
  meta : option (gmap string Token);
  data : ResponseData
}.

(** The upstream API: the answer to the [n]-th request of a run, which
    may depend on the page size and the pagination token it was sent. *)
Definition Upstream : Type := nat -> Z -> Token -> Response.

(** The local variables of the loop. *)
Record State : Type := mkState {
  pagination_token : Token;
  count : Z;
  pagination_tokens : gset string
}.

(** Why the loop was left: one constructor per [break], and the exception
    that no handler of the loop catches. *)
Inductive Stop : Type :=
  | CannotExtractToken
  | CannotExtractResult
  | NoMoreData
  | TokenAlreadyCollected
  | TokenIsNone
  | ResultCountReached
  | Uncaught (e : exn).

(** [response.meta["next_token"]] *)
Definition get_next_token (response : Response) : exn + Token :=
  match meta response with
  | None => inl AttributeError
  | Some m =>
      match m !! "next_token" with
      | None => inl KeyError
      | Some t => inr t
      end
  end.

(** The [for result in response.data] loop over a list: the stamped dicts
    yielded, and whether the loop ran to its end ([false]: a result had
    no [.data], the [AttributeError] was caught). *)
Fixpoint yield_all (next_token : Token) (results : list Result)
  : list dict * bool :=
  match results with
  | [] => ([], true)
  | NoData :: _ => ([], false)
  | Tweet d :: rest =>
      let '(ys, ok) := yield_all next_token rest in
      (dict_set "next_token" (token_val next_token) d :: ys, ok)
  end.

(** [next_token in pagination_tokens]; [None] is hashable and never a
    member, since only [str] tokens are added. *)
Definition token_in (t : Token) (seen : gset string) : bool :=
  match t with
  | None => false
  | Some s => bool_decide (s ∈ seen)
  end.

Definition token_eqb (a b : Token) : bool := bool_decide (a = b).

(** The checks after the page was yielded (lines 88 to 100). *)
Definition advance (result_count : Z) (st : State) (next_token : Token)
  (count' : Z) : State + Stop :=
  if token_eqb next_token (pagination_token st) then inr NoMoreData
  else if token_in next_token (pagination_tokens st)
  then inr TokenAlreadyCollected
  else
    match next_token with
    | None => inr TokenIsNone
    | Some s =>
        let st' := mkState (Some s) count' ({[ s ]} ∪ pagination_tokens st) in
        if result_count <=? count' then inr ResultCountReached else inl st'
    end.

(** One iteration of [while True], after the request: the dicts yielded
    and either the state of the next iteration or the reason to stop. *)
Definition page (result_count : Z) (st : State) (response : Response)
  : list dict * (State + Stop) :=
  match get_next_token response with
  | inl _ => ([], inr CannotExtractToken)
  | inr next_token =>
      match data response with
      | DataMissing => ([], inr CannotExtractResult)
      | DataNone => ([], inr (Uncaught TypeError))
      | DataList results =>
          let '(ys, ok) := yield_all next_token results in
          if ok
          then (ys, advance result_count st next_token
                      (count st + Z.of_nat (length ys)))
          else (ys, inr CannotExtractResult)
      end
  end.

(** A run: the state at each request, in order, everything yielded, and
    the reason the loop ended ([None]: the fuel ran out first). *)
Record Run : Type := mkRun {
  requests : list State;
  yielded : list dict;
  stop : option Stop
}.

Definition max_results (result_count : Z) : Z := Z.min 100 result_count.

Fixpoint loop (fuel : nat) (client : Upstream) (result_count : Z)
  (n : nat) (st : State) : Run :=
  match fuel with
  | O => mkRun [] [] None
  | S fuel' =>
      let response :=
        client n (max_results result_count) (pagination_token st) in
      match page result_count st response with
      | (ys, inr why) => mkRun [st] ys (Some why)
      | (ys, inl st') =>
          let r := loop fuel' client result_count (S n) st' in
          mkRun (st :: requests r) (ys ++ yielded r) (stop r)
      end
  end.

Definition initial : State := mkState None 0 ∅.

Definition search_tweets (fuel : nat) (client : Upstream) (result_count : Z)
  : Run :=
  loop fuel client result_count 0 initial.

(** [ceil(a / b)] for [b > 0]. *)
Definition ceil_div (a b : Z) : Z := (a + b - 1) / b.

Definition request_bound (result_count : Z) : Z :=
  ceil_div result_count (max_results result_count) + 1.

(** *** Notions used to state the properties *)

(** The state at a request is well formed when its token, if any, was
    recorded among the tokens seen. *)
Definition recorded (st : State) : Prop :=
  forall s, pagination_token st = Some s -> s ∈ pagination_tokens st.

(** The upstream honours the page size it is asked for. *)
Definition within_page_size (client : Upstream) (result_count : Z) : Prop :=
  forall n tok results,
    data (client n (max_results result_count) tok) = DataList results ->
    Z.of_nat (length results) <= max_results result_count.

(** Every page on which the run goes on holds at least [k] results:
    whenever a request of the run is followed by another one, the
    answer to it was a list of at least [k] results. *)
Definition continuing_pages_at_least (k : Z) (client : Upstream)
  (result_count : Z) : Prop :=
  forall fuel j st st' results,
    requests (search_tweets fuel client result_count) !! j = Some st ->
    requests (search_tweets fuel client result_count) !! S j = Some st' ->
    data (client j (max_results result_count) (pagination_token st))
    = DataList results ->
    k <= Z.of_nat (length results).

(** Every page on which the run goes on is full: it holds at least the
    page size asked for. *)
Definition continuing_pages_full (client : Upstream) (result_count : Z)
  : Prop :=
  continuing_pages_at_least (max_results result_count) client result_count.

(** Every response carries the same [next_token]. *)
Definition constant_cursor (client : Upstream) (result_count : Z) : Prop :=
  exists c, forall n tok,
    get_next_token (client n (max_results result_count) tok) = inr c.

(** The first response has no readable [next_token]. *)
Definition first_cursor_absent (client : Upstream) (result_count : Z)
  : Prop :=
  exists e, get_next_token (client 0%nat (max_results result_count) None)
            = inl e.

(** *** Sample upstreams *)

(** An upstream that answers every request with the token [A] and one
    tweet. *)
Definition repeats_A : Upstream := fun _ _ _ =>
  mkResponse (Some {[ "next_token" := Some "A" ]})
    (DataList [Tweet [("id", PStr "1")]]).

(** An upstream that hands out one tweet per page and a token never seen
    before: the token of the [n]-th response is the numeral of [n]. *)
Definition one_per_page : Upstream := fun n _ _ =>
  mkResponse (Some {[ "next_token" := Some (pretty n) ]})
    (DataList [Tweet [("id", PStr (pretty n))]]).

(** Two full pages of a hundred tweets, each with a new token, then a
    last page of thirty tweets whose [meta] has no [next_token]. *)
Definition full_then_short : Upstream := fun n _ _ =>
  if (n <? 2)%nat
  then mkResponse (Some {[ "next_token" := Some (pretty n) ]})
         (DataList (replicate 100 (Tweet [("id", PStr "1")])))
  else mkResponse (Some ∅)
         (DataList (replicate 30 (Tweet [("id", PStr "1")]))).

(** Two full pages with new tokens, then a short page that returns the
    first token again. *)
Definition full_then_cycle : Upstream := fun n _ _ =>
  if (n <? 2)%nat
  then mkResponse (Some {[ "next_token" := Some (pretty n) ]})
         (DataList (replicate 100 (Tweet [("id", PStr "1")])))
  else mkResponse (Some {[ "next_token" := Some (pretty 0%nat) ]})
         (DataList (replicate 30 (Tweet [("id", PStr "1")]))).

(** An upstream whose pages are empty and whose tokens are always new. *)
Definition empty_pages : Upstream := fun n _ _ =>
  mkResponse (Some {[ "next_token" := Some (pretty n) ]}) (DataList []).

(** Three tweets on every page, whatever page size was asked for. *)
Definition three_per_page : Upstream := fun n _ _ =>
  mkResponse (Some {[ "next_token" := Some (pretty n) ]})
    (DataList [Tweet [("id", PStr "1")]; Tweet [("id", PStr "2")];
               Tweet [("id", PStr "3")]]).

(** A last page as the loop accepts it: one tweet, [next_token] null. *)
Definition null_token_page : Upstream := fun _ _ _ =>
  mkResponse (Some {[ "next_token" := None ]})
    (DataList [Tweet [("id", PStr "7")]]).

(** A last page with one tweet and no [next_token] in its [meta]. *)
Definition no_token_page : Upstream := fun _ _ _ =>
  mkResponse (Some {[ "result_count" := Some "1" ]})
    (DataList [Tweet [("id", PStr "7")]]).

End Pagination.

(** ** process_results and group_dataframe *)

Module Aggregation.

(** *** Duck-typed access, as Python resolves it *)

(** [v.get(k, default)]: only a dict has the method. *)
Definition py_get (v : pyval) (k : string) (default : pyval) : result pyval :=
  match v with
  | PDict d => Ok (from_option id default (dict_lookup k d))
  | _ => Raise AttributeError
  end.

(** [v[k]] with a string key. *)
Definition py_item (v : pyval) (k : string) : result pyval :=
  match v with
  | PDict d =>
      match dict_lookup k d with
      | Some x => Ok x
      | None => Raise KeyError
      end
  | _ => Raise TypeError
  end.

(** Truth value, for [if annotations:]. *)
Definition py_bool (v : pyval) : bool :=
  match v with
  | PNone => false
  | PBool b => b
  | PInt z => negb (z =? 0)
  | PStr s => negb (String.eqb s "")
  | PList l => match l with [] => false | _ => true end
  | PDict d => match d with [] => false | _ => true end
  end.

Fixpoint chars (s : string) : list pyval :=
  match s with
  | EmptyString => []
  | String c s' => PStr (String c EmptyString) :: chars s'
  end.

(** [for x in v]: a list gives its elements, a dict its keys, a string
    its characters; nothing else is iterable. *)
Definition py_iter (v : pyval) : result (list pyval) :=
  match v with
  | PList l => Ok l
  | PDict d => Ok (map (fun kv => PStr (fst kv)) d)
  | PStr s => Ok (chars s)
  | _ => Raise TypeError
  end.

(** *** The loop body of process_results *)

Definition annotation_row (tweet_created_at tweet_id annotation : pyval)
  : result dict :=
  annotation_type ← py_get annotation "type" PNone;
  normalized_text ← py_get annotation "normalized_text" (PStr "");
  Ok [("normalized_text", normalized_text);
      ("annotation_type", annotation_type);
      ("tweet_created_at", tweet_created_at);
      ("tweet_id", tweet_id)].

Definition mention_row (tweet_created_at tweet_id mention : pyval)
  : result dict :=
  username ← py_get mention "username" (PStr "");
  Ok [("username", username);
      ("tweet_created_at", tweet_created_at);
      ("tweet_id", tweet_id)].

(** A [for] loop that appends one row per element and stops at the first
    exception. *)
Fixpoint rows_of (f : pyval -> result dict) (l : list pyval)
  : result (list dict) :=
  match l with
  | [] => Ok []
  | x :: l' =>
      r ← f x;
      rs ← rows_of f l';
      Ok (r :: rs)
  end.

(** [if xs: for x in xs: ...append(...)] *)
Definition collect (f : pyval -> result dict) (xs : pyval)
  : result (list dict) :=
  if py_bool xs then (l ← py_iter xs; rows_of f l) else Ok [].

(** Lines 119 to 148 for one decoded line: the mention rows and the
    annotation rows that the line appends. *)
Definition process_row (data : pyval) : result (list dict * list dict) :=
  entities ← py_get data "entities" PNone;
  tweet_created_at ← py_item data "created_at";
  tweet_id ← py_item data "id";
  annotations ← py_get entities "annotations" (PList []);
  new_annotations ←
    collect (annotation_row tweet_created_at tweet_id) annotations;
  mentions ← py_get entities "mentions" (PList []);
  new_mentions ← collect (mention_row tweet_created_at tweet_id) mentions;
  Ok (new_mentions, new_annotations).

(** *** group_dataframe *)

(** One row of the grouped frame: the index (the group key) and the three
    named aggregations. *)
Record SummaryRow : Type := mkSummaryRow {
  key : string;
  count : nat;
  last_tweeted_at : string;
  last_tweet_url : string
}.

(** The three cells of a row that [group_dataframe] reads. *)
Record Occurrence : Type := mkOccurrence {
  occ_key : string;
  occ_created_at : string;
  occ_id : string
}.

(** The columns of [pd.DataFrame(records)] when every record has the same
    keys, as the lists built by [process_results] do; no record, no
    column. *)
Definition columns (dataframe : list dict) : list string :=
  match dataframe with
  | [] => []
  | r :: _ => map fst r
  end.

(** A cell of a row, when it is a [str]. *)
Definition str_cell (r : dict) (column : string) : option string :=
  match dict_lookup column r with
  | Some (PStr s) => Some s
  | _ => None
  end.

(** The cells that [group_dataframe] reads in a row, and in the whole
    frame, when all of them are [str]. *)
Definition occurrence (grouping_field : string) (r : dict)
  : option Occurrence :=
  match str_cell r grouping_field, str_cell r "tweet_created_at",
        str_cell r "tweet_id" with
  | Some k, Some c, Some i => Some (mkOccurrence k c i)
  | _, _, _ => None
  end.

Fixpoint occurrences (grouping_field : string) (dataframe : list dict)
  : option (list Occurrence) :=
  match dataframe with
  | [] => Some []
  | r :: rest =>
      match occurrence grouping_field r,
            occurrences grouping_field rest with
      | Some o, Some os => Some (o :: os)
      | _, _ => None
      end
  end.

(** Python's order on [str]: code point by code point, which on UTF-8
    strings is the byte order below. *)
Definition str_max (a b : string) : string :=
  if String.leb a b then b else a.

(** [max] of a column within a group; a group is never empty. *)
Definition max_str (l : list string) : string :=
  match l with
  | [] => ""
  | x :: l' => fold_left str_max l' x
  end.

(** The group keys as [groupby] lists them: each once, ascending. *)
Fixpoint insert_key (k : string) (ks : list string) : list string :=
  match ks with
  | [] => [k]
  | x :: ks' =>
      if String.eqb k x then ks
      else if String.leb k x then k :: ks
      else x :: insert_key k ks'
  end.

Definition group_keys (os : list Occurrence) : list string :=
  fold_right insert_key [] (map occ_key os).

Definition in_group (k : string) (o : Occurrence) : bool :=
  String.eqb (occ_key o) k.

(** The occurrences grouped under [k]. *)
Definition group_of (os : list Occurrence) (k : string) : list Occurrence :=
  filter (fun o => in_group k o = true) os.

(** The f-string of line 43. *)
Definition status_url (tweet_id : string) : string :=
  "https://twitter.com/robotventures/status/" ++ tweet_id.

(** [.agg(count=..., last_tweeted_at=..., last_tweet_url=...)] for one
    group, with the [map] of line 42 applied to its last column. *)
Definition aggregate (os : list Occurrence) (k : string) : SummaryRow :=
  let g := group_of os k in
  mkSummaryRow k (length g)
    (max_str (map occ_created_at g))
    (status_url (max_str (map occ_id g))).

(** [sort_values("count", ascending=False)].  pandas leaves the order of
    rows with equal [count] to numpy's quicksort; the model keeps such
    rows in the order they had, and no statement below depends on it. *)
Fixpoint insert_row (r : SummaryRow) (l : list SummaryRow) : list SummaryRow :=
  match l with
  | [] => [r]
  | x :: l' =>
      if (count x <=? count r)%nat then r :: l else x :: insert_row r l'
  end.

Definition sort_values (l : list SummaryRow) : list SummaryRow :=
  fold_right insert_row [] l.

Definition has_column (dataframe : list dict) (column : string) : bool :=
  bool_decide (column ∈ columns dataframe).

(** [groupby] raises [KeyError] on a frame without the grouping column,
    [agg] on one without a column it reduces; then one row per group,
    sorted by [count]. *)
Definition group_dataframe (dataframe : list dict) (grouping_field : string)
  : result (list SummaryRow) :=
  if negb (has_column dataframe grouping_field) then Raise KeyError
  else if negb (has_column dataframe "tweet_created_at") then Raise KeyError
  else if negb (has_column dataframe "tweet_id") then Raise KeyError
  else
    match occurrences grouping_field dataframe with
    | None => Unmodelled
    | Some os => Ok (sort_values (map (aggregate os) (group_keys os)))
    end.

(** *** process_results *)

Definition DATAPATH : string := "text_tweets.txt".
Definition MENTION_PATH : string := "mentions.csv".
Definition ANNOTATION_PATH : string := "annotations.csv".

(** The two codecs the function calls.  [json_loads] is [json.loads],
    [None] standing for its [JSONDecodeError]; [to_csv] is
    [DataFrame.to_csv] from the index label and the rows to the lines it
    writes. *)
Class Codecs : Type := {
  json_loads : string -> option pyval;
  to_csv : string -> list SummaryRow -> list string
}.

(** A text file is the list of its lines; the file system maps paths to
    files. *)
Abbreviation FS := (gmap string (list string)).

Section ProcessResults.
Context `{Codecs}.

Definition loads (row : string) : result pyval :=
  match json_loads row with
  | Some data => Ok data
  | None => Raise JSONDecodeError
  end.

(** The [for row in file.readlines()] loop. *)
Fixpoint read_rows (rows : list string) (all_mentions all_annotations : list dict)
  : result (list dict * list dict) :=
  match rows with
  | [] => Ok (all_mentions, all_annotations)
  | row :: rest =>
      data ← loads row;
      '(new_mentions, new_annotations) ← process_row data;
      read_rows rest (all_mentions ++ new_mentions)
        (all_annotations ++ new_annotations)
  end.

(** Everything up to the two [to_csv] calls. *)
Definition summaries (rows : list string)
  : result (list SummaryRow * list SummaryRow) :=
  '(all_mentions, all_annotations) ← read_rows rows [] [];
  mention_aggregation ← group_dataframe all_mentions "username";
  annotation_aggregation ←
    group_dataframe all_annotations "normalized_text";
  Ok (mention_aggregation, annotation_aggregation).

(** The outcome of the call and the file system it leaves.  With
    [Unmodelled] the file system is handed back as it was given for want
    of a model only: the code may well have written the two summaries,
    and nothing is stated about them for such a run. *)
Definition process_results (fs : FS) : result unit * FS :=
  match fs !! DATAPATH with
  | None => (Raise FileNotFoundError, fs)
  | Some rows =>
      match summaries rows with
      | Ok (mention_aggregation, annotation_aggregation) =>
          (Ok tt,
           <[ANNOTATION_PATH := to_csv "normalized_text" annotation_aggregation]>
             (<[MENTION_PATH := to_csv "username" mention_aggregation]> fs))
      | Raise e => (Raise e, fs)
      | Unmodelled => (Unmodelled, fs)
      end
  end.

(** What one line of the log does to the loop. *)
Definition row_outcome (row : string) : result (list dict * list dict) :=
  data ← loads row; process_row data.

End ProcessResults.

(** *** Notions used to state the properties *)

(** [m] is a greatest element of [l]. *)
Definition is_max (m : string) (l : list string) : Prop :=
  m ∈ l /\ forall x, x ∈ l -> (x ≤ m)%string.

Definition str_lt (a b : string) : Prop := (a ≤ b)%string /\ a <> b.

Definition by_count_desc (a b : SummaryRow) : Prop :=
  (count b <= count a)%nat.

(** The rows appended for one mention and one annotation; a missing
    grouping key falls back on the empty string. *)
Definition mention_of (tweet_created_at tweet_id : pyval) (mention : dict)
  : dict :=
  [("username", from_option id (PStr "") (dict_lookup "username" mention));
   ("tweet_created_at", tweet_created_at);
   ("tweet_id", tweet_id)].

Definition annotation_of (tweet_created_at tweet_id : pyval)
  (annotation : dict) : dict :=
  [("normalized_text",
    from_option id (PStr "") (dict_lookup "normalized_text" annotation));
   ("annotation_type", from_option id PNone (dict_lookup "type" annotation));
   ("tweet_created_at", tweet_created_at);
   ("tweet_id", tweet_id)].

(** The record [d] has the [created_at] [c], the [id] [i] and an
    [entities] dict whose [mentions] and [annotations], none when the
    key is missing, are the lists of dicts [ms] and [anns]. *)
Definition record_carries (d : dict) (c i : pyval) (ms anns : list dict)
  : Prop :=
  exists e : dict,
    dict_lookup "entities" d = Some (PDict e)
    /\ dict_lookup "created_at" d = Some c
    /\ dict_lookup "id" d = Some i
    /\ from_option id (PList []) (dict_lookup "mentions" e)
       = PList (PDict <$> ms)
    /\ from_option id (PList []) (dict_lookup "annotations" e)
       = PList (PDict <$> anns).

(** *** A sample log *)

(** Decoded lines: two tweets that mention alice, the later one
    annotated, a tweet whose [entities] is an empty dict, a tweet
    without [entities], and a tweet whose one mention has no
    [username]. *)
Definition tweet10 : pyval :=
  PDict [("id", PStr "10");
         ("created_at", PStr "2023-01-01T10:00:00.000Z");
         ("entities",
          PDict [("mentions",
                  PList [PDict [("start", PInt 0); ("end", PInt 6);
                                ("username", PStr "alice")]])])].

Definition tweet20 : pyval :=
  PDict [("id", PStr "20");
         ("created_at", PStr "2023-01-02T10:00:00.000Z");
         ("entities",
          PDict [("annotations",
                  PList [PDict [("type", PStr "Other");
                                ("normalized_text", PStr "rust")]]);
                 ("mentions",
                  PList [PDict [("username", PStr "alice")]])])].

Definition tweet30 : pyval :=
  PDict [("id", PStr "30");
         ("created_at", PStr "2023-01-03T10:00:00.000Z");
         ("entities", PDict [])].

Definition tweet40 : pyval :=
  PDict [("id", PStr "40");
         ("created_at", PStr "2023-01-04T10:00:00.000Z");
         ("text", PStr "hello")].

Definition tweet50 : pyval :=
  PDict [("id", PStr "50");
         ("created_at", PStr "2023-01-05T10:00:00.000Z");
         ("entities",
          PDict [("mentions", PList [PDict [("start", PInt 0)]])])].

(** A decoder that knows the first four lines by name and rejects every
    other line, and a writer of plain comma-separated lines. *)
Definition sample_loads (row : string) : option pyval :=
  if String.eqb row "tweet 10" then Some tweet10
  else if String.eqb row "tweet 20" then Some tweet20
  else if String.eqb row "tweet 30" then Some tweet30
  else if String.eqb row "tweet 40" then Some tweet40
  else None.

Definition csv_line (cells : list string) : string :=
  String.concat "," cells.

Definition plain_csv (index_label : string) (rows : list SummaryRow)
  : list string :=
  csv_line [index_label; "count"; "last_tweeted_at"; "last_tweet_url"]
  :: map (fun r => csv_line [key r; pretty (count r); last_tweeted_at r;
                             last_tweet_url r]) rows.

Definition sample_codecs : Codecs :=
  {| json_loads := sample_loads; to_csv := plain_csv |}.

Definition log_of (rows : list string) : FS := {[ DATAPATH := rows ]}.

(** The mention frame of the sample log, with one more row. *)
Definition sample_frame : list dict :=
  [[("username", PStr "alice");
    ("tweet_created_at", PStr "2023-01-01T10:00:00.000Z");
    ("tweet_id", PStr "10")];
   [("username", PStr "bob");
    ("tweet_created_at", PStr "2023-01-01T12:00:00.000Z");
    ("tweet_id", PStr "15")];
   [("username", PStr "alice");
    ("tweet_created_at", PStr "2023-01-02T10:00:00.000Z");
    ("tweet_id", PStr "20")]].

Definition sample_occurrences : list Occurrence :=
  [mkOccurrence "alice" "2023-01-01T10:00:00.000Z" "10";
   mkOccurrence "bob" "2023-01-01T12:00:00.000Z" "15";
   mkOccurrence "alice" "2023-01-02T10:00:00.000Z" "20"].

(** The number an id spells: tweet ids are decimal numerals, and the
    later tweet has the larger number. *)
Fixpoint decimal_from (acc : N) (s : string) : option N :=
  match s with
  | EmptyString => Some acc
  | String c s' =>
      match Ascii.is_nat c with
      | Some d => decimal_from (10 * acc + N.of_nat d) s'
      | None => None
      end
  end.

Definition decimal (s : string) : option N :=
  match s with
  | EmptyString => None
  | _ => decimal_from 0 s
  end.

(** Two mentions of alice, in a tweet whose id has 18 digits and in a
    later tweet whose id has 19. *)
Definition two_eras : list dict :=
  [[("username", PStr "alice");
    ("tweet_created_at", PStr "2018-05-25T10:00:00.000Z");
    ("tweet_id", PStr "999999999999999999")];
   [("username", PStr "alice");
    ("tweet_created_at", PStr "2018-05-28T10:00:00.000Z");
    ("tweet_id", PStr "1000000000000000001")]].

End Aggregation.

(** ** fetch_results and main *)

Module Program.
Import Pagination Aggregation.

Definition USER_ID : string := "".
Definition MAX_RESULT_COUNT : Z := 2000.

(** [json.dumps] on a yielded dict.  Its output holds no line break, so
    that with the line feed added it is one line of the file. *)
Class Encoder : Type := {
  json_dumps : dict -> string
}.

Definition newline : string := String "010"%char EmptyString.

Fixpoint ends_with_newline (s : string) : bool :=
  match s with
  | EmptyString => false
  | String c EmptyString => Ascii.eqb c "010"%char
  | String _ s' => ends_with_newline s'
  end.

(** [file.write(text)] at the end of a file kept as its lines, for a
    [text] that is one terminated line: it starts a line of its own
    unless the last line of the file is not terminated. *)
Fixpoint write_line (lines : list string) (text : string) : list string :=
  match lines with
  | [] => [text]
  | l :: rest =>
      match rest with
      | [] => if ends_with_newline l then [l; text] else [l +:+ text]
      | _ => l :: write_line rest text
      end
  end.

(** The characters of a file kept as its lines. *)
Definition content (lines : list string) : string :=
  fold_right String.append "" lines.

(** How a generator run ends for its caller: still running when the fuel
    is out, an exception when one left the loop, a return otherwise. *)
Definition ending (why : option Stop) : option (result unit) :=
  match why with
  | None => None
  | Some (Uncaught e) => Some (Raise e)
  | Some _ => Some (Ok tt)
  end.

Section Run.
Context `{Codecs} `{Encoder}.

(** The [for] loop of [fetch_results]: one [file.write] for each dict the
    generator hands over. *)
Definition written (file : list string) (ys : list dict) : list string :=
  fold_left (fun lines data => write_line lines (json_dumps data +:+ newline))
    ys file.

(** The upstream API as a function of the user id.  [open(DATAPATH, "a")]
    creates the file when there is none; every dict written before the
    generator ends or raises stays in the file. *)
Definition fetch_results (fuel : nat) (api : string -> Upstream)
  (user_id : string) (max_result_count : Z) (fs : FS)
  : option (result unit) * FS :=
  let r := search_tweets fuel (api user_id) max_result_count in
  let file := from_option id [] (fs !! DATAPATH) in
  (ending (stop r), <[DATAPATH := written file (yielded r)]> fs).

Definition main (fuel : nat) (api : string -> Upstream)
  (fetch_data process_data : bool) (fs : FS) : option (result unit) * FS :=
  let '(fetched, fs1) :=
    if fetch_data
    then fetch_results fuel api USER_ID MAX_RESULT_COUNT fs
    else (Some (Ok tt), fs) in
  match fetched with
  | Some (Ok _) =>
      if process_data
      then let '(processed, fs2) := process_results fs1 in
           (Some processed, fs2)
      else (Some (Ok tt), fs1)
  | _ => (fetched, fs1)
  end.

End Run.

(** *** Notions used to state the properties *)

(** Every token the upstream hands out is one of [T]. *)
Definition tokens_within (T : gset string) (client : Upstream)
  (result_count : Z) : Prop :=
  forall n tok s,
    get_next_token (client n (max_results result_count) tok) = inr (Some s) ->
    s ∈ T.

(** The text that [fetch_results] writes for a list of yielded dicts. *)
Definition dumped `{Encoder} (ys : list dict) : list string :=
  map (fun data => json_dumps data +:+ newline) ys.

(** The last line of a file, if any, is terminated. *)
Definition terminated (lines : list string) : Prop :=
  forall l, last lines = Some l -> ends_with_newline l = true.

(** A cell that is a [str] or is missing. *)
Definition str_or_missing (k : string) (d : dict) : Prop :=
  dict_lookup k d = None \/ exists s, dict_lookup k d = Some (PStr s).

(** A record as the API writes it: [created_at] and [id] are [str], and
    so is every [username] and [normalized_text] that is there. *)
Definition api_record (d : dict) (ms anns : list dict) : Prop :=
  exists c i,
    record_carries d (PStr c) (PStr i) ms anns
    /\ Forall (str_or_missing "username") ms
    /\ Forall (str_or_missing "normalized_text") anns.

(** The lines [rows] decode to the records whose mentions and
    annotations are listed in [recs], line by line. *)
Definition decodes_to `{Codecs} (rows : list string)
  (recs : list (list dict * list dict)) : Prop :=
  Forall2 (fun row rec =>
             exists d, json_loads row = Some (PDict d)
                       /\ api_record d rec.1 rec.2) rows recs.

(** *** More sample lines *)

(** The sample decoder, extended by a line that is a JSON list and an
    object without [created_at]. *)
Definition wide_loads (row : string) : option pyval :=
  if String.eqb row "a list" then Some (PList [tweet10])
  else if String.eqb row "no date"
  then Some (PDict [("id", PStr "60"); ("entities", PDict [])])
  else sample_loads row.

Definition wide_codecs : Codecs :=
  {| json_loads := wide_loads; to_csv := plain_csv |}.

(** An upstream with one page: the annotated tweet of the sample log
    and a null token.  An encoder that names a dict by its [id], and the
    decoder that reads that name back as the stamped dict. *)
Definition timeline_tweet : dict :=
  [("id", PStr "20");
   ("created_at", PStr "2023-01-02T10:00:00.000Z");
   ("entities",
    PDict [("annotations",
            PList [PDict [("type", PStr "Other");
                          ("normalized_text", PStr "rust")]]);
           ("mentions", PList [PDict [("username", PStr "alice")]])])].

Definition timeline : string -> Upstream := fun _ _ _ _ =>
  mkResponse (Some {[ "next_token" := None ]})
    (DataList [Tweet timeline_tweet]).

Definition id_dumps (d : dict) : string :=
  match dict_lookup "id" d with
  | Some (PStr s) => "tweet " +:+ s
  | _ => "?"
  end.

Definition sample_encoder : Encoder := {| json_dumps := id_dumps |}.

Definition stamped_loads (row : string) : option pyval :=
  if String.eqb row ("tweet 20" +:+ newline)
  then Some (PDict (dict_set "next_token" PNone timeline_tweet))
  else None.

Definition stamped_codecs : Codecs :=
  {| json_loads := stamped_loads; to_csv := plain_csv |}.

(** An upstream whose only answer cannot be read. *)
Definition silent : string -> Upstream := fun _ _ _ _ =>
  mkResponse None DataMissing.

(** An upstream whose answer has a token and [None] for data. *)
Definition no_data : string -> Upstream := fun _ _ _ _ =>
  mkResponse (Some {[ "next_token" := Some "A" ]}) DataNone.

End Program.

(** * Properties of search_tweets *)

Module PaginationFacts.
Import Pagination.

Lemma yield_all_length next_token results :
  (length (yield_all next_token results).1 <= length results)%nat.
Proof.
  induction results as [|[|d] rest IH]; simpl; [lia..|].
  destruct (yield_all next_token rest) as [ys ok]; simpl in *. lia.
Qed.

(** With no result lacking its [.data], the page is yielded whole. *)
Lemma yield_all_tweets next_token (ds : list dict) :
  yield_all next_token (Tweet <$> ds)
  = (dict_set "next_token" (token_val next_token) <$> ds, true).
Proof.
  induction ds as [|d ds IH]; [done|].
  rewrite !fmap_cons. cbn [yield_all]. by rewrite IH.
Qed.

(** What is known when an iteration goes on to the next request. *)
Lemma page_continues result_count st response ys st' :
  page result_count st response = (ys, inl st') ->
  exists s results,
    get_next_token response = inr (Some s)
    /\ data response = DataList results
    /\ yield_all (Some s) results = (ys, true)
    /\ st' = mkState (Some s) (count st + Z.of_nat (length ys))
               ({[ s ]} ∪ pagination_tokens st)
    /\ Some s <> pagination_token st
    /\ (s ∉ pagination_tokens st)
    /\ count st' < result_count.
Proof.
  unfold page, advance, token_eqb, token_in.
  destruct (get_next_token response) as [e|next_token]; [by intros [=]|].
  destruct (data response) as [| |results]; [by intros [=]..|].
  destruct (yield_all next_token results) as [ys0 ok] eqn:Hy.
  destruct ok; [|by intros [=]].
  case_bool_decide as Heq; [by intros [=]|].
  destruct next_token as [s|]; [|by intros [=]].
  case_bool_decide as Hin; [by intros [=]|].
  destruct (Z.leb_spec result_count (count st + Z.of_nat (length ys0)));
    intros [= <- <-].
  exists s, results. simpl. repeat split; auto.
Qed.

Lemma page_yield_length result_count st response :
  forall results, data response = DataList results ->
  (length (page result_count st response).1 <= length results)%nat.
Proof.
  intros results Hd. unfold page. rewrite Hd.
  destruct (get_next_token response) as [e|t]; simpl; [lia|].
  pose proof (yield_all_length t results) as Hl.
  destruct (yield_all t results) as [ys ok]; simpl in *.
  by destruct ok.
Qed.

(** A page that is not a list of results yields nothing. *)
Lemma page_yield_nil result_count st response :
  (forall results, data response <> DataList results) ->
  (page result_count st response).1 = [].
Proof.
  intros Hd. unfold page.
  destruct (get_next_token response); [done|].
  destruct (data response) as [| |results]; [done..|].
  by destruct (Hd results).
Qed.

(** Once the loop has ended, more fuel changes nothing. *)
Lemma loop_stable client result_count fuel : forall n st why,
  stop (loop fuel client result_count n st) = Some why ->
  forall fuel', (fuel <= fuel')%nat ->
  loop fuel' client result_count n st = loop fuel client result_count n st.
Proof.
  induction fuel as [|fuel IH]; intros n st why Hs fuel' Hle; [done|].
  destruct fuel' as [|fuel']; [lia|]. simpl in *.
  destruct (page result_count st _) as [ys [st'|w]]; [|done].
  simpl in Hs. rewrite (IH _ _ _ Hs fuel'); [done|lia].
Qed.

(** The requests of a run after its first: each uses a token that is
    new at that point and is recorded when the request is made. *)
Lemma loop_requests client result_count fuel : forall n st,
  recorded st ->
  let r := loop fuel client result_count n st in
  Forall (fun st' => exists s,
            pagination_token st' = Some s
            /\ (s ∉ pagination_tokens st)
            /\ s ∈ pagination_tokens st') (tail (requests r))
  /\ NoDup (pagination_token <$> requests r)
  /\ (requests r = [] \/ exists rest, requests r = st :: rest).
Proof.
  induction fuel as [|fuel IH]; intros n st Hrec; simpl.
  { split; [constructor|]. split; [constructor|]. by left. }
  destruct (page result_count st _) as [ys [st'|w]] eqn:Hp; simpl.
  2:{ split; [constructor|]. split; [|right; by exists []].
      apply NoDup_singleton. }
  apply page_continues in Hp
    as (s & results & _ & _ & _ & -> & Hne & Hnin & _).
  set (st' := mkState _ _ _).
  assert (recorded st') as Hrec'.
  { intros s' [= <-]. simpl. by apply elem_of_union_l, elem_of_singleton_2. }
  destruct (IH (S n) st' Hrec') as (Htl & Hnd & Hhd).
  set (r := loop fuel client result_count (S n) st') in *.
  assert (Forall (fun st'' => exists s0,
            pagination_token st'' = Some s0
            /\ (s0 ∉ pagination_tokens st)
            /\ s0 ∈ pagination_tokens st'') (requests r)) as Hall.
  { destruct Hhd as [->|[rest Hr]]; [constructor|].
    rewrite Hr in Htl |- *. simpl in Htl. constructor.
    - exists s. simpl. split; [done|]. split; [done|].
      by apply elem_of_union_l, elem_of_singleton_2.
    - eapply Forall_impl; [exact Htl|].
      intros st'' (s0 & H1 & H2 & H3). exists s0. simpl in H2.
      split; [done|]. split; [|done].
      intros Hin. by apply H2, elem_of_union_r. }
  split; [exact Hall|]. split; [|right; by eexists].
  apply NoDup_cons. split; [|exact Hnd].
  intros Hin. apply (list_elem_of_fmap pagination_token) in Hin
    as (st'' & Heq & Hin).
  rewrite Forall_forall in Hall.
  destruct (Hall _ Hin) as (s0 & H1 & H2 & _).
  rewrite H1 in Heq. by apply H2, Hrec.
Qed.

Lemma loop_recorded client result_count fuel : forall n st,
  recorded st ->
  Forall recorded (requests (loop fuel client result_count n st)).
Proof.
  intros n st Hrec.
  destruct (loop_requests client result_count fuel n st Hrec)
    as (Htl & _ & [->|[rest Hr]]); [constructor|].
  rewrite Hr in Htl |- *. constructor; [done|].
  eapply Forall_impl; [exact Htl|].
  intros st' (s & H1 & _ & H3) s' Hs'. by simplify_eq.
Qed.

Lemma recorded_initial : recorded initial.
Proof. by intros s. Qed.

(** ** C5 *)

(** C5. Within one run of [search_tweets] no token is sent with a page
    request twice, and every token a request uses was recorded in
    [pagination_tokens] before that request was made; this holds for
    every upstream and for every prefix of a run. *)
Theorem search_tweets_no_token_twice (fuel : nat) (client : Upstream)
  (result_count : Z) :
  let r := search_tweets fuel client result_count in
  NoDup (pagination_token <$> requests r)
  /\ Forall (fun st => forall s, pagination_token st = Some s ->
                                 s ∈ pagination_tokens st) (requests r).
Proof.
  simpl. unfold search_tweets. split.
  - apply (loop_requests client result_count fuel 0%nat initial
             recorded_initial).
  - apply (loop_recorded client result_count fuel 0%nat initial
             recorded_initial).
Qed.

(** ** C6 *)

Lemma loop_yield_bound client result_count fuel :
  1 <= result_count ->
  within_page_size client result_count ->
  forall n st, count st <= result_count - 1 ->
  count st + Z.of_nat (length (yielded (loop fuel client result_count n st)))
  <= result_count - 1 + max_results result_count.
Proof.
  intros Hrc Hsize. unfold within_page_size in Hsize.
  assert (1 <= max_results result_count) as Hmr
    by (unfold max_results; lia).
  induction fuel as [|fuel IH]; intros n st Hc; simpl; [lia|].
  set (response :=
         client n (max_results result_count) (pagination_token st)).
  assert (Z.of_nat (length (page result_count st response).1)
          <= max_results result_count) as Hys.
  { destruct (data response) as [| |results] eqn:Hd.
    - rewrite page_yield_nil; [simpl; lia|]. by rewrite Hd.
    - rewrite page_yield_nil; [simpl; lia|]. by rewrite Hd.
    - pose proof (page_yield_length result_count st response results Hd).
      pose proof (Hsize n (pagination_token st) results Hd). lia. }
  destruct (page result_count st response) as [ys [st'|w]] eqn:Hp;
    simpl in *; [|lia].
  apply page_continues in Hp as (s & results & _ & _ & _ & -> & _ & _ & Hlt).
  simpl in Hlt. rewrite length_app.
  set (st' := mkState _ _ _).
  specialize (IH (S n) st'). simpl in IH. lia.
Qed.

(** C6, as the code has it. For every [result_count >= 1] and every
    upstream whose pages hold at most the page size asked for,
    [min(100, result_count)], the number of dicts [search_tweets] yields
    is at most [result_count + min(100, result_count) - 1], at every
    point of the run. *)
Theorem search_tweets_yield_bound (fuel : nat) (client : Upstream)
  (result_count : Z) :
  1 <= result_count ->
  within_page_size client result_count ->
  Z.of_nat (length (yielded (search_tweets fuel client result_count)))
  <= result_count + max_results result_count - 1.
Proof.
  intros Hrc Hsize.
  pose proof (loop_yield_bound client result_count fuel Hrc Hsize
                0%nat initial) as H.
  simpl in H. unfold search_tweets. lia.
Qed.

Lemma search_tweets_yield_bound_witness :
  Z.of_nat (length (yielded (search_tweets 4 repeats_A 5)))
  <= 5 + max_results 5 - 1.
Proof.
  apply (search_tweets_yield_bound 4 repeats_A 5); [lia|].
  intros n tok results [= <-]. vm_compute. discriminate.
Defined.

(** C6 fails as stated: asked for pages of one tweet, [three_per_page]
    still sends three, and all three are yielded where the bound is
    one. *)
Lemma search_tweets_yield_bound_fails :
  ~ (forall (fuel : nat) (client : Upstream) (result_count : Z),
       1 <= result_count ->
       Z.of_nat (length (yielded (search_tweets fuel client result_count)))
       <= result_count + max_results result_count - 1).
Proof.
  intros Hclaim.
  specialize (Hclaim 1%nat three_per_page 1 ltac:(lia)).
  vm_compute in Hclaim. by apply Hclaim.
Qed.

(** ** C1 *)

Lemma yield_all_complete next_token results ys :
  yield_all next_token results = (ys, true) -> length ys = length results.
Proof.
  revert ys. induction results as [|[|d] rest IH]; intros ys; simpl.
  - by intros [= <-].
  - by intros [=].
  - destruct (yield_all next_token rest) as [ys0 ok].
    intros [= <- ->]. simpl. by rewrite (IH ys0).
Qed.

Lemma loop_cons client result_count fuel n st ys st' :
  page result_count st
    (client n (max_results result_count) (pagination_token st))
  = (ys, inl st') ->
  requests (loop (S fuel) client result_count n st)
  = st :: requests (loop fuel client result_count (S n) st').
Proof. intros Hp. cbn [loop]. by rewrite Hp. Qed.

Lemma loop_first client result_count fuel n st :
  requests (loop (S fuel) client result_count n st) !! 0%nat = Some st.
Proof.
  cbn [loop]. by destruct (page result_count st _) as [ys [st'|w]].
Qed.

(** A request that is followed by another one was answered with a
    [str] token. *)
Lemma loop_followed client result_count fuel : forall n st j a b,
  requests (loop fuel client result_count n st) !! j = Some a ->
  requests (loop fuel client result_count n st) !! S j = Some b ->
  exists s,
    get_next_token
      (client (n + j)%nat (max_results result_count) (pagination_token a))
    = inr (Some s).
Proof.
  induction fuel as [|fuel IH]; intros n st j a b; [done|].
  destruct (page result_count st
              (client n (max_results result_count) (pagination_token st)))
    as [ys [st'|w]] eqn:Hp.
  2:{ cbn [loop]. rewrite Hp. by destruct j. }
  rewrite (loop_cons _ _ _ _ _ _ _ Hp).
  destruct j as [|j]; simpl.
  - intros [= <-] _. rewrite Nat.add_0_r.
    apply page_continues in Hp as (s & results & Ht & _). by exists s.
  - rewrite Nat.add_succ_r. apply IH.
Qed.

(** The loop from any of its states, when the pages it goes on from
    hold at least [k] results. *)
Lemma loop_continuing client result_count k :
  1 <= k ->
  forall fuel n st,
    (forall f j a b results,
       requests (loop f client result_count n st) !! j = Some a ->
       requests (loop f client result_count n st) !! S j = Some b ->
       data (client (n + j)%nat (max_results result_count)
               (pagination_token a)) = DataList results ->
       k <= Z.of_nat (length results)) ->
    (1 <= fuel)%nat ->
    result_count - count st <= Z.of_nat fuel * k ->
    exists why,
      stop (loop fuel client result_count n st) = Some why
      /\ (length (requests (loop fuel client result_count n st)) <= fuel)%nat.
Proof.
  intros Hk.
  induction fuel as [|fuel IH]; intros n st Hfull Hf Hc; [lia|].
  destruct (page result_count st
              (client n (max_results result_count) (pagination_token st)))
    as [ys [st'|w]] eqn:Hp.
  2:{ cbn [loop]. rewrite Hp. exists w. split; [done|simpl; lia]. }
  pose proof Hp as Hc'. apply page_continues in Hc'
    as (s & results & _ & Hd & Hy & Hst' & _ & _ & Hlt).
  assert (k <= Z.of_nat (length ys)) as Hys.
  { rewrite (yield_all_complete _ _ _ Hy).
    apply (Hfull 2%nat 0%nat st st' results).
    - apply loop_first.
    - rewrite (loop_cons _ _ _ _ _ _ _ Hp). apply loop_first.
    - by rewrite Nat.add_0_r. }
  destruct (IH (S n) st') as (why & Hs & Hl).
  - intros f j a b results' Ha Hb Hd'.
    apply (Hfull (S f) (S j) a b results').
    + by rewrite (loop_cons _ _ _ _ _ _ _ Hp).
    + by rewrite (loop_cons _ _ _ _ _ _ _ Hp).
    + by rewrite Nat.add_succ_r.
  - subst st'. simpl in *. nia.
  - subst st'. simpl in *. nia.
  - cbn [loop]. rewrite Hp. exists why. split; [done|simpl; lia].
Qed.

(** It is enough that every answer with a [str] token holds at least
    [k] results. *)
Lemma continuing_pages_by_token k client result_count :
  (forall n tok s results,
     get_next_token (client n (max_results result_count) tok)
     = inr (Some s) ->
     data (client n (max_results result_count) tok) = DataList results ->
     k <= Z.of_nat (length results)) ->
  continuing_pages_at_least k client result_count.
Proof.
  intros Htok fuel j st st' results Hj Hj' Hd.
  destruct (loop_followed client result_count fuel 0%nat initial j st st'
              Hj Hj') as [s Hs].
  by apply (Htok j (pagination_token st) s results).
Qed.

Lemma ceil_div_covers a b : 1 <= b -> a <= ceil_div a b * b.
Proof.
  intros Hb. unfold ceil_div.
  pose proof (Z.div_mod (a + b - 1) b ltac:(lia)).
  pose proof (Z.mod_pos_bound (a + b - 1) b ltac:(lia)). nia.
Qed.

Lemma ceil_div_pos a b : 1 <= b -> 1 <= a -> 1 <= ceil_div a b.
Proof.
  intros Hb Ha. unfold ceil_div.
  apply Z.div_le_lower_bound; lia.
Qed.

(** A response that repeats the token of its request ends the loop. *)
Lemma page_same_token result_count st response :
  get_next_token response = inr (pagination_token st) ->
  exists w, (page result_count st response).2 = inr w.
Proof.
  intros Ht. unfold page, advance, token_eqb. rewrite Ht.
  destruct (data response) as [| |results]; [by eexists..|].
  destruct (yield_all _ results) as [ys [|]]; simpl; [|by eexists].
  rewrite bool_decide_eq_true_2; [by eexists|done].
Qed.

(** C1, as the code has it. For [result_count >= 1], [search_tweets]
    ends (by a [break] or by an exception of the page loop) within
    [ceil(result_count / page size) + 1] page requests, the page size
    being [min(100, result_count)], for every upstream whose pages are
    full wherever the run goes on to a further request, for every
    upstream that repeats one token for ever, and for every upstream
    whose first response has no token; and it ends within [result_count]
    page requests for every upstream whose pages hold at least one tweet
    wherever the run goes on to a further request. *)
Theorem search_tweets_request_bound (client : Upstream) (result_count : Z) :
  1 <= result_count ->
  (continuing_pages_full client result_count
   \/ constant_cursor client result_count
   \/ first_cursor_absent client result_count ->
   exists fuel why,
     stop (search_tweets fuel client result_count) = Some why
     /\ Z.of_nat (length (requests (search_tweets fuel client result_count)))
        <= request_bound result_count)
  /\ (continuing_pages_at_least 1 client result_count ->
      exists fuel why,
        stop (search_tweets fuel client result_count) = Some why
        /\ Z.of_nat
             (length (requests (search_tweets fuel client result_count)))
           <= result_count).
Proof.
  intros Hrc. unfold request_bound, search_tweets.
  assert (1 <= max_results result_count) as Hmr
    by (unfold max_results; lia).
  pose proof (ceil_div_pos result_count _ Hmr Hrc) as Hpos.
  split; [intros [Hfull|[[c Hc]|[e He]]]|intros Hone].
  - set (k := ceil_div result_count (max_results result_count)) in *.
    destruct (loop_continuing client result_count _ Hmr
                (Z.to_nat k) 0%nat initial) as (why & Hs & Hl).
    + intros f j a b results. apply Hfull.
    + lia.
    + pose proof (ceil_div_covers result_count _ Hmr). simpl.
      fold k in H. lia.
    + exists (Z.to_nat k), why. split; [done|lia].
  - exists 2%nat. cbn [loop].
    destruct (page result_count initial _) as [ys [st'|w]] eqn:Hp; simpl.
    2:{ exists w. split; [done|lia]. }
    apply page_continues in Hp
      as (s & results & Ht & _ & _ & -> & _ & _ & _).
    rewrite Hc in Ht. injection Ht as ->.
    set (st' := mkState _ _ _).
    destruct (page_same_token result_count st'
                (client 1%nat (max_results result_count) (Some s)))
      as [w Hw]; [by rewrite Hc|].
    change (pagination_token st') with (Some s).
    destruct (page result_count st' _) as [ys' [st''|w']]; simpl in *;
      [done|].
    exists w'. split; [done|lia].
  - exists 1%nat, CannotExtractToken. cbn [loop].
    unfold page. change (pagination_token initial) with (@None string).
    rewrite He. simpl. split; [done|lia].
  - destruct (loop_continuing client result_count 1 ltac:(lia)
                (Z.to_nat result_count) 0%nat initial)
      as (why & Hs & Hl); [|lia|simpl; lia|].
    + intros f j a b results. apply Hone.
    + exists (Z.to_nat result_count), why. split; [done|lia].
Qed.

Lemma search_tweets_request_bound_witness :
  (exists fuel why,
     stop (search_tweets fuel full_then_short 250) = Some why
     /\ Z.of_nat (length (requests (search_tweets fuel full_then_short 250)))
        <= request_bound 250)
  /\ (exists fuel why,
        stop (search_tweets fuel one_per_page 5) = Some why
        /\ Z.of_nat (length (requests (search_tweets fuel one_per_page 5)))
           <= 5).
Proof.
  split.
  - apply (search_tweets_request_bound full_then_short 250); [lia|].
    left. apply continuing_pages_by_token.
    intros n tok s results. unfold full_then_short.
    destruct (n <? 2)%nat; [|discriminate].
    intros _ [= <-]. vm_compute. discriminate.
  - apply (search_tweets_request_bound one_per_page 5); [lia|].
    apply continuing_pages_by_token.
    intros n tok s results _ [= <-]. vm_compute. discriminate.
Defined.

(** The run against [full_then_short] with a budget of 250: three
    requests where the bound is four. *)
Example search_tweets_full_then_short :
  stop (search_tweets 9 full_then_short 250) = Some CannotExtractToken
  /\ length (requests (search_tweets 9 full_then_short 250)) = 3%nat
  /\ request_bound 250 = 4.
Proof. vm_compute. by repeat split. Qed.

(** The run against [full_then_cycle]: its short third page returns a
    token already followed, the run ends there, and no page it went on
    from was short. *)
Example search_tweets_full_then_cycle :
  stop (search_tweets 9 full_then_cycle 250) = Some TokenAlreadyCollected
  /\ length (requests (search_tweets 9 full_then_cycle 250)) = 3%nat.
Proof. vm_compute. by repeat split. Qed.

(** C1 fails as stated: with [result_count = 5] the page size is 5 and
    the bound is 2 requests, and [one_per_page] is asked five times. *)
Lemma search_tweets_request_bound_fails :
  ~ (forall (client : Upstream) (result_count : Z),
       1 <= result_count ->
       exists fuel why,
         stop (search_tweets fuel client result_count) = Some why
         /\ Z.of_nat
              (length (requests (search_tweets fuel client result_count)))
            <= request_bound result_count).
Proof.
  intros Hclaim.
  destruct (Hclaim one_per_page 5 ltac:(lia)) as (fuel & why & Hs & Hb).
  assert (stop (search_tweets 5 one_per_page 5) = Some ResultCountReached)
    as H5 by (vm_compute; reflexivity).
  assert (length (requests (search_tweets 5 one_per_page 5)) = 5%nat)
    as Hl5 by (vm_compute; reflexivity).
  assert (request_bound 5 = 2) as Hrb by reflexivity.
  assert (search_tweets fuel one_per_page 5 = search_tweets 5 one_per_page 5)
    as Heq.
  { unfold search_tweets in *.
    destruct (Nat.le_ge_cases fuel 5) as [Hle|Hge].
    - symmetry. by eapply loop_stable.
    - by eapply loop_stable. }
  rewrite Heq, Hl5, Hrb in Hb. lia.
Qed.

(** Against [empty_pages] the loop never ends: no amount of fuel brings
    a stop. *)
Lemma search_tweets_empty_pages_runs_on (fuel : nat) :
  stop (search_tweets fuel empty_pages 1) = None.
Proof.
  unfold search_tweets.
  assert (forall n st,
            count st = 0 ->
            (forall m, (n <= m)%nat ->
                       Some (pretty m) <> pagination_token st
                       /\ pretty m ∉ pagination_tokens st) ->
            stop (loop fuel empty_pages 1 n st) = None) as Hinv.
  { induction fuel as [|fuel IH]; intros n st Hc Hfresh; [done|].
    cbn [loop]. unfold page, advance, token_eqb, token_in.
    assert (get_next_token
              (empty_pages n (max_results 1) (pagination_token st))
            = inr (Some (pretty n))) as ->.
    { unfold get_next_token. simpl. by rewrite lookup_singleton_eq. }
    destruct (Hfresh n (le_n n)) as [Hne Hnin]. simpl.
    rewrite bool_decide_eq_false_2 by done.
    rewrite bool_decide_eq_false_2 by done.
    rewrite Hc. simpl. apply IH; [done|].
    intros m Hm. simpl. destruct (Hfresh m ltac:(lia)) as [_ Hnin'].
    split.
    - intros [= Heq%(inj pretty)]. lia.
    - intros [Heq%elem_of_singleton|Hin]%elem_of_union; [|done].
      apply (inj pretty) in Heq. lia. }
  apply Hinv; [done|]. intros m _. split; [done|].
  apply not_elem_of_empty.
Qed.

(** ** C4 *)

(** C4, as the code has it. A response whose [next_token] is present
    and [None], with every result readable, has all its tweets yielded,
    each stamped with that [None], and ends the loop there; a response
    with no [next_token] to read ends the loop before any of its tweets
    is yielded. *)
Theorem search_tweets_last_page (fuel : nat) (client : Upstream)
  (result_count : Z) (n : nat) (st : State) :
  let response :=
    client n (max_results result_count) (pagination_token st) in
  (forall ds,
     get_next_token response = inr None ->
     data response = DataList (Tweet <$> ds) ->
     exists why,
       loop (S fuel) client result_count n st
       = mkRun [st] (dict_set "next_token" PNone <$> ds) (Some why)
       /\ (why = NoMoreData \/ why = TokenIsNone))
  /\ (forall e,
        get_next_token response = inl e ->
        loop (S fuel) client result_count n st
        = mkRun [st] [] (Some CannotExtractToken)).
Proof.
  intros response. split.
  - intros ds Ht Hd. cbn [loop]. fold response.
    unfold page. rewrite Ht, Hd, yield_all_tweets. cbn [token_val].
    unfold advance, token_eqb, token_in.
    case_bool_decide.
    + exists NoMoreData. split; [done|by left].
    + exists TokenIsNone. split; [done|by right].
  - intros e He. cbn [loop]. fold response. unfold page. by rewrite He.
Qed.

Lemma search_tweets_last_page_witness :
  (exists why,
     loop 1 null_token_page 10 0 initial
     = mkRun [initial] [[("id", PStr "7"); ("next_token", PNone)]]
         (Some why)
     /\ (why = NoMoreData \/ why = TokenIsNone))
  /\ loop 1 no_token_page 10 0 initial
     = mkRun [initial] [] (Some CannotExtractToken).
Proof.
  split.
  - apply (proj1 (search_tweets_last_page 0 null_token_page 10 0 initial)
             [[("id", PStr "7")]]);
      reflexivity.
  - apply (proj2 (search_tweets_last_page 0 no_token_page 10 0 initial)
             KeyError).
    reflexivity.
Defined.

(** C4 fails as stated: the tweet of [no_token_page], a page whose
    [next_token] is absent, is not yielded, whatever the stamp. *)
Lemma search_tweets_absent_token_drops_page :
  ~ (forall (client : Upstream) (result_count : Z) ds,
       get_next_token (client 0%nat (max_results result_count) None)
       = inl KeyError ->
       data (client 0%nat (max_results result_count) None)
       = DataList (Tweet <$> ds) ->
       exists v fuel,
         yielded (search_tweets fuel client result_count)
         = (dict_set "next_token" v <$> ds)).
Proof.
  intros Hclaim.
  destruct (Hclaim no_token_page 10 [[("id", PStr "7")]])
    as (v & fuel & Hy); [reflexivity..|].
  destruct fuel as [|fuel]; discriminate Hy.
Qed.

End PaginationFacts.

(** * Properties of process_results and group_dataframe *)

Module AggregationFacts.
Import Aggregation.

(** ** Dicts and duck-typed access *)

Lemma dict_lookup_keys k (d : dict) v :
  dict_lookup k d = Some v -> k ∈ map fst d.
Proof.
  induction d as [|[k' v'] d IH]; simpl; [done|].
  destruct (String.eqb_spec k k') as [->|Hne]; intros Hl.
  - apply list_elem_of_here.
  - apply list_elem_of_further. auto.
Qed.

(** None of the steps of the loop body touches pandas. *)
Lemma py_get_modelled v k default : py_get v k default <> Unmodelled.
Proof. by destruct v. Qed.

Lemma py_item_modelled v k : py_item v k <> Unmodelled.
Proof. destruct v; simpl; try done. by destruct (dict_lookup k d). Qed.

Lemma py_iter_modelled v : py_iter v <> Unmodelled.
Proof. by destruct v. Qed.

Lemma bind_modelled {A B} (r : result A) (k : A -> result B) :
  r <> Unmodelled -> (forall a, k a <> Unmodelled) ->
  (r ≫= k) <> Unmodelled.
Proof. destruct r; simpl; auto. Qed.

Lemma rows_of_modelled f l :
  (forall x, f x <> Unmodelled) -> rows_of f l <> Unmodelled.
Proof.
  intros Hf. induction l as [|x l IH]; simpl; [done|].
  apply bind_modelled; [apply Hf|]. intros r.
  apply bind_modelled; [apply IH|]. done.
Qed.

Lemma collect_modelled f xs :
  (forall x, f x <> Unmodelled) -> collect f xs <> Unmodelled.
Proof.
  intros Hf. unfold collect. destruct (py_bool xs); [|done].
  apply bind_modelled; [apply py_iter_modelled|].
  intros l. by apply rows_of_modelled.
Qed.

Lemma annotation_row_modelled c i a : annotation_row c i a <> Unmodelled.
Proof.
  unfold annotation_row.
  apply bind_modelled; [apply py_get_modelled|]. intros t.
  apply bind_modelled; [apply py_get_modelled|]. done.
Qed.

Lemma mention_row_modelled c i m : mention_row c i m <> Unmodelled.
Proof.
  unfold mention_row. apply bind_modelled; [apply py_get_modelled|]. done.
Qed.

Lemma process_row_modelled data : process_row data <> Unmodelled.
Proof.
  unfold process_row.
  apply bind_modelled; [apply py_get_modelled|]. intros entities.
  apply bind_modelled; [apply py_item_modelled|]. intros c.
  apply bind_modelled; [apply py_item_modelled|]. intros i.
  apply bind_modelled; [apply py_get_modelled|]. intros annotations.
  apply bind_modelled;
    [apply collect_modelled, annotation_row_modelled|]. intros ra.
  apply bind_modelled; [apply py_get_modelled|]. intros mentions.
  apply bind_modelled; [apply collect_modelled, mention_row_modelled|].
  done.
Qed.

(** A record without [entities]: [data.get("entities")] is [None], and
    [None] has no [get]. *)
Lemma process_row_without_entities (d : dict) :
  dict_lookup "entities" d = None ->
  (exists e, process_row (PDict d) = Raise e)
  /\ (is_Some (dict_lookup "created_at" d) ->
      is_Some (dict_lookup "id" d) ->
      process_row (PDict d) = Raise AttributeError).
Proof.
  intros He. unfold process_row. cbn [py_get py_item]. rewrite He.
  destruct (dict_lookup "created_at" d) as [c|]; simpl.
  2:{ split; [by eexists|]. by intros [? [=]]. }
  destruct (dict_lookup "id" d) as [i|]; simpl.
  2:{ split; [by eexists|]. by intros _ [? [=]]. }
  split; [by eexists|done].
Qed.

(** ** Strings in Python's order *)

Lemma leb_le a b : String.leb a b = true <-> (a ≤ b)%string.
Proof. unfold String.le. by destruct (String.leb a b). Qed.

Lemma str_max_ub a b : (a ≤ str_max a b)%string /\ (b ≤ str_max a b)%string.
Proof.
  unfold str_max. destruct (String.leb a b) eqn:Hab.
  - split; [by apply leb_le|done].
  - split; [done|].
    destruct (total String.le a b) as [Hle|Hle]; [|done].
    apply leb_le in Hle. congruence.
Qed.

Lemma str_max_cases a b : str_max a b = a \/ str_max a b = b.
Proof. unfold str_max. destruct (String.leb a b); auto. Qed.

Lemma fold_left_str_max l : forall x,
  is_max (fold_left str_max l x) (x :: l).
Proof.
  induction l as [|y l IH]; intros x; simpl.
  - split; [apply list_elem_of_here|].
    intros z ->%list_elem_of_singleton. done.
  - destruct (IH (str_max x y)) as [Hin Hub].
    destruct (str_max_ub x y) as [Hx Hy]. split.
    + apply elem_of_cons in Hin as [->|Hin].
      * destruct (str_max_cases x y) as [->| ->];
          [apply list_elem_of_here|].
        apply list_elem_of_further, list_elem_of_here.
      * by do 2 apply list_elem_of_further.
    + assert (str_max x y ≤ fold_left str_max l (str_max x y))%string
        as Hm by apply Hub, list_elem_of_here.
      intros z [->|[->|Hz]%elem_of_cons]%elem_of_cons.
      * by etrans.
      * by etrans.
      * by apply Hub, list_elem_of_further.
Qed.

Lemma max_str_is_max l : l <> [] -> is_max (max_str l) l.
Proof. destruct l as [|x l]; [done|]. intros _. apply fold_left_str_max. Qed.

(** ** The group keys *)

Lemma str_lt_trans a b c : str_lt a b -> str_lt b c -> str_lt a c.
Proof.
  intros [Hab Hne] [Hbc Hne']. split; [by etrans|].
  intros ->. apply Hne. by apply (anti_symm String.le).
Qed.

Lemma insert_key_elem k ks z : z ∈ insert_key k ks <-> z = k \/ z ∈ ks.
Proof.
  induction ks as [|x ks IH]; simpl.
  - rewrite list_elem_of_singleton. split; [auto|].
    by intros [?|?%elem_of_nil].
  - destruct (String.eqb_spec k x) as [->|Hne].
    + split; [auto|]. intros [->|?]; [apply list_elem_of_here|done].
    + destruct (String.leb k x).
      * by rewrite elem_of_cons.
      * rewrite !elem_of_cons, IH. tauto.
Qed.

Lemma insert_key_sorted k ks :
  StronglySorted str_lt ks -> StronglySorted str_lt (insert_key k ks).
Proof.
  induction 1 as [|x ks Hs IH Hall]; simpl.
  - repeat constructor.
  - destruct (String.eqb_spec k x) as [->|Hne]; [by constructor|].
    destruct (String.leb k x) eqn:Hkx.
    + apply leb_le in Hkx. assert (str_lt k x) as Hlt by done.
      constructor; [by constructor|]. constructor; [done|].
      eapply Forall_impl; [exact Hall|]. intros y Hy.
      by eapply str_lt_trans.
    + constructor; [done|]. apply Forall_forall. intros z Hz.
      apply insert_key_elem in Hz as [->|Hz].
      * split; [|done].
        destruct (total String.le x k) as [Hle|Hle]; [done|].
        apply leb_le in Hle. congruence.
      * rewrite Forall_forall in Hall. auto.
Qed.

Lemma str_lt_sorted_NoDup ks : StronglySorted str_lt ks -> NoDup ks.
Proof.
  induction 1 as [|x ks Hs IH Hall]; constructor; [|done].
  intros Hin. rewrite Forall_forall in Hall. by destruct (Hall x Hin).
Qed.

Lemma group_keys_sorted os : StronglySorted str_lt (group_keys os).
Proof.
  unfold group_keys. induction (map occ_key os) as [|k ks IH]; simpl.
  - constructor.
  - by apply insert_key_sorted.
Qed.

Lemma group_keys_elem os k : k ∈ group_keys os <-> k ∈ occ_key <$> os.
Proof.
  unfold group_keys. change (map occ_key os) with (occ_key <$> os).
  induction (occ_key <$> os) as [|x ks IH]; simpl; [done|].
  rewrite insert_key_elem, elem_of_cons, IH. done.
Qed.

Lemma group_keys_NoDup os : NoDup (group_keys os).
Proof. apply str_lt_sorted_NoDup, group_keys_sorted. Qed.

(** ** Counting *)

Lemma in_group_iff k o : in_group k o = true <-> occ_key o = k.
Proof. unfold in_group. apply String.eqb_eq. Qed.

Lemma group_of_nonempty os k : k ∈ occ_key <$> os -> group_of os k <> [].
Proof.
  intros (o & -> & Ho)%list_elem_of_fmap Hnil.
  assert (o ∈ group_of os (occ_key o)) as Hin.
  { apply list_elem_of_filter. split; [by apply in_group_iff|done]. }
  rewrite Hnil in Hin. by apply elem_of_nil in Hin.
Qed.

Lemma sum_no_key (f : string -> nat) k0 ks :
  k0 ∉ ks ->
  sum_list_with (fun k => ((if String.eqb k0 k then 1 else 0) + f k)%nat) ks
  = sum_list_with f ks.
Proof.
  induction ks as [|x ks IH]; simpl; [done|].
  intros [Hne Hnin]%not_elem_of_cons.
  destruct (String.eqb_spec k0 x) as [->|_]; [done|].
  by rewrite IH.
Qed.

Lemma sum_one_key (f : string -> nat) k0 ks :
  NoDup ks -> k0 ∈ ks ->
  sum_list_with (fun k => ((if String.eqb k0 k then 1 else 0) + f k)%nat) ks
  = S (sum_list_with f ks).
Proof.
  induction 1 as [|k ks Hnin Hnd IH]; intros Hin; simpl.
  { by apply elem_of_nil in Hin. }
  destruct (String.eqb_spec k0 k) as [->|Hne].
  - by rewrite sum_no_key.
  - apply elem_of_cons in Hin as [->|Hin]; [done|].
    rewrite IH by done. lia.
Qed.

Lemma group_sizes_sum os : forall ks,
  NoDup ks -> (forall o, o ∈ os -> occ_key o ∈ ks) ->
  sum_list_with (fun k => length (group_of os k)) ks = length os.
Proof.
  induction os as [|o os IH]; intros ks Hnd Hcov.
  - clear. induction ks as [|k ks IHk]; [done|]. simpl in *. by rewrite IHk.
  - simpl. rewrite <- (IH ks Hnd).
    2:{ intros o' Ho'. by apply Hcov, list_elem_of_further. }
    rewrite <- (sum_one_key _ (occ_key o) ks Hnd).
    2:{ apply Hcov, list_elem_of_here. }
    clear. induction ks as [|k ks IHk]; simpl; [done|].
    rewrite IHk. f_equal. unfold group_of. rewrite filter_cons.
    unfold in_group at 1. case_decide as Hd.
    + by rewrite Hd.
    + by destruct (String.eqb (occ_key o) k).
Qed.

(** ** sort_values *)

Lemma insert_row_perm r l : insert_row r l ≡ₚ r :: l.
Proof.
  induction l as [|x l IH]; simpl; [done|].
  destruct (count x <=? count r)%nat; [done|].
  rewrite IH. apply perm_swap.
Qed.

Lemma sort_values_perm l : sort_values l ≡ₚ l.
Proof.
  induction l as [|r l IH]; simpl; [done|].
  by rewrite insert_row_perm, IH.
Qed.

Lemma insert_row_sorted r l :
  StronglySorted by_count_desc l ->
  StronglySorted by_count_desc (insert_row r l).
Proof.
  induction 1 as [|x l Hs IH Hall]; simpl.
  - repeat constructor.
  - destruct (Nat.leb_spec (count x) (count r)) as [Hle|Hlt].
    + constructor; [by constructor|]. constructor; [done|].
      eapply Forall_impl; [exact Hall|]. unfold by_count_desc.
      intros y Hy. lia.
    + constructor; [done|]. rewrite insert_row_perm.
      constructor; [|done]. unfold by_count_desc. lia.
Qed.

Lemma sort_values_sorted l : StronglySorted by_count_desc (sort_values l).
Proof.
  induction l as [|r l IH]; simpl; [constructor|].
  by apply insert_row_sorted.
Qed.

(** ** The frame and its typed view *)

Lemma occurrences_length field df os :
  occurrences field df = Some os -> length os = length df.
Proof.
  revert os. induction df as [|r df IH]; intros os; simpl.
  - by intros [= <-].
  - destruct (occurrence field r); [|done].
    destruct (occurrences field df) as [os'|]; [|done].
    intros [= <-]. simpl. by rewrite (IH os').
Qed.

Lemma str_cell_column r column s :
  str_cell r column = Some s -> column ∈ map fst r.
Proof.
  unfold str_cell. destruct (dict_lookup column r) as [v|] eqn:Hl; [|done].
  intros _. by eapply dict_lookup_keys.
Qed.

(** On a frame with rows, all read cells being [str], the call returns
    the sorted aggregates of the groups. *)
Lemma group_dataframe_ok df field os :
  df <> [] -> occurrences field df = Some os ->
  group_dataframe df field
  = Ok (sort_values (map (aggregate os) (group_keys os))).
Proof.
  intros Hne Hos. unfold group_dataframe. rewrite Hos.
  destruct df as [|r df]; [done|]. simpl in Hos.
  destruct (occurrence field r) as [o|] eqn:Ho; [|done].
  unfold occurrence in Ho.
  destruct (str_cell r field) as [k|] eqn:Hk; [|done].
  destruct (str_cell r "tweet_created_at") as [c|] eqn:Hc; [|done].
  destruct (str_cell r "tweet_id") as [i|] eqn:Hi; [|done].
  unfold has_column, columns.
  rewrite !bool_decide_eq_true_2; [done|by eapply str_cell_column..].
Qed.

Lemma occurrences_elem field df os row :
  occurrences field df = Some os -> row ∈ df ->
  exists o, o ∈ os /\ occurrence field row = Some o.
Proof.
  revert os. induction df as [|r df IH]; intros os Hos Hin.
  { by apply elem_of_nil in Hin. }
  simpl in Hos. destruct (occurrence field r) as [o|] eqn:Ho; [|done].
  destruct (occurrences field df) as [os'|]; [|done].
  injection Hos as <-. apply elem_of_cons in Hin as [->|Hin].
  - exists o. split; [apply list_elem_of_here|done].
  - destruct (IH os' eq_refl Hin) as (o' & Ho' & Hrow).
    exists o'. split; [by apply list_elem_of_further|done].
Qed.

(** What the rows of the grouped frame are. *)
Lemma group_dataframe_rows df field os :
  df <> [] -> occurrences field df = Some os ->
  exists out,
    group_dataframe df field = Ok out
    /\ NoDup (key <$> out)
    /\ (forall k, k ∈ key <$> out <-> k ∈ occ_key <$> os)
    /\ (forall r, r ∈ out ->
          count r = length (group_of os (key r))
          /\ is_max (last_tweeted_at r)
               (occ_created_at <$> group_of os (key r))
          /\ exists m, is_max m (occ_id <$> group_of os (key r))
                       /\ last_tweet_url r = status_url m)
    /\ sum_list_with count out = length df
    /\ StronglySorted by_count_desc out.
Proof.
  intros Hne Hos.
  set (rows := map (aggregate os) (group_keys os)).
  exists (sort_values rows).
  assert (key <$> rows = group_keys os) as Hkeys.
  { unfold rows. change (map (aggregate os) (group_keys os))
      with (aggregate os <$> group_keys os).
    rewrite <- list_fmap_compose. apply list_fmap_id. }
  split; [by apply group_dataframe_ok|].
  split; [by rewrite sort_values_perm, Hkeys; apply group_keys_NoDup|].
  split.
  { intros k. by rewrite sort_values_perm, Hkeys, group_keys_elem. }
  split.
  { intros r Hr. rewrite sort_values_perm in Hr.
    apply (list_elem_of_fmap (aggregate os)) in Hr as (k & -> & Hk).
    apply group_keys_elem, group_of_nonempty in Hk.
    cbn [aggregate key count last_tweeted_at last_tweet_url].
    split; [done|].
    split.
    - apply max_str_is_max. by destruct (group_of os k).
    - eexists. split; [|done].
      apply max_str_is_max. by destruct (group_of os k). }
  split; [|apply sort_values_sorted].
  rewrite sort_values_perm, <- (occurrences_length field df os Hos).
  rewrite <- (group_sizes_sum os (group_keys os) (group_keys_NoDup os)).
  2:{ intros o Ho. apply group_keys_elem, list_elem_of_fmap. eauto. }
  unfold rows. clear. induction (group_keys os) as [|k ks IH]; [done|].
  simpl. by rewrite IH.
Qed.

(** ** C7 *)

(** C7, what the code does instead. On a frame with at least one row
    whose grouped and reduced cells are strings, [group_dataframe]
    returns one row per distinct key; the [count] of a row is the
    number of occurrences of its key in the frame, so the counts add up
    to the number of rows of the frame; [last_tweeted_at] is the
    greatest [tweet_created_at] of the group; the rows come in
    descending order of [count].  The [last_tweet_url] of a row is the
    status URL followed by the [tweet_id] of the group that is greatest
    in Python's order on [str], which compares the ids as text and not
    as the numbers they spell: in [two_eras], where alice is mentioned
    in a tweet with an 18-digit id and in a later one with a 19-digit
    id, the URL is that of the earlier tweet, next to the date of the
    later one. *)
Theorem group_dataframe_last_id_as_text :
  (forall (dataframe : list dict) (grouping_field : string)
          (os : list Occurrence),
     dataframe <> [] ->
     occurrences grouping_field dataframe = Some os ->
     exists out,
       group_dataframe dataframe grouping_field = Ok out
       /\ NoDup (key <$> out)
       /\ (forall k, k ∈ key <$> out <-> k ∈ occ_key <$> os)
       /\ (forall r, r ∈ out ->
             count r = length (group_of os (key r))
             /\ is_max (last_tweeted_at r)
                  (occ_created_at <$> group_of os (key r))
             /\ exists m,
                  is_max m (occ_id <$> group_of os (key r))
                  /\ last_tweet_url r
                     = "https://twitter.com/robotventures/status/" +:+ m)
       /\ sum_list_with count out = length dataframe
       /\ StronglySorted by_count_desc out)
  /\ group_dataframe two_eras "username"
     = Ok [mkSummaryRow "alice" 2 "2018-05-28T10:00:00.000Z"
             "https://twitter.com/robotventures/status/999999999999999999"]
  /\ exists earlier later,
       decimal "999999999999999999" = Some earlier
       /\ decimal "1000000000000000001" = Some later
       /\ (earlier < later)%N.
Proof.
  split; [|split].
  - intros dataframe grouping_field os Hne Hos.
    destruct (group_dataframe_rows dataframe grouping_field os Hne Hos)
      as (out & Hout & Hnd & Hkeys & Hrows & Hsum & Hsorted).
    exists out. repeat split; try done; apply Hkeys || apply Hrows; done.
  - vm_compute. reflexivity.
  - eexists _, _. repeat split; vm_compute; reflexivity.
Qed.

(** ** Records with entities *)

Lemma rows_of_dicts (f : pyval -> result dict) (g : dict -> dict)
  (l : list dict) :
  (forall x, f (PDict x) = Ok (g x)) ->
  rows_of f (PDict <$> l) = Ok (g <$> l).
Proof.
  intros Hf. induction l as [|x l IH]; [done|].
  rewrite !fmap_cons. cbn [rows_of]. by rewrite Hf, IH.
Qed.

Lemma collect_dicts (f : pyval -> result dict) (g : dict -> dict)
  (l : list dict) :
  (forall x, f (PDict x) = Ok (g x)) ->
  collect f (PList (PDict <$> l)) = Ok (g <$> l).
Proof.
  intros Hf. destruct l as [|x l]; [done|].
  exact (rows_of_dicts f g (x :: l) Hf).
Qed.

(** A record with an [entities] dict appends one row per mention and
    one per annotation. *)
Lemma process_row_entities (d : dict) (c i : pyval) (ms anns : list dict) :
  record_carries d c i ms anns ->
  process_row (PDict d)
  = Ok (mention_of c i <$> ms, annotation_of c i <$> anns).
Proof.
  intros (e & He & Hc & Hi & Hm & Ha). unfold process_row.
  cbn [py_get py_item]. rewrite He, Hc, Hi. simpl mbind.
  cbn [py_get]. rewrite Ha, Hm. simpl mbind.
  rewrite (collect_dicts (annotation_row c i) (annotation_of c i))
    by (intros; reflexivity).
  rewrite (collect_dicts (mention_row c i) (mention_of c i))
    by (intros; reflexivity).
  reflexivity.
Qed.

(** A row whose grouping cell is the empty string is counted in the
    group of the empty string. *)
Lemma empty_key_group df field os row :
  occurrences field df = Some os ->
  row ∈ df ->
  dict_lookup field row = Some (PStr "") ->
  exists out g,
    group_dataframe df field = Ok out
    /\ g ∈ out /\ key g = ""
    /\ count g = length (group_of os "")
    /\ (1 <= count g)%nat.
Proof.
  intros Hos Hin Hrow.
  assert (df <> []) as Hne.
  { intros ->. by apply elem_of_nil in Hin. }
  destruct (group_dataframe_rows df field os Hne Hos)
    as (out & Hout & _ & Hkeys & Hrows & _).
  destruct (occurrences_elem field df os row Hos Hin)
    as (o & Ho & Hocc).
  assert (occ_key o = "") as Hk.
  { unfold occurrence, str_cell in Hocc. rewrite Hrow in Hocc.
    destruct (dict_lookup "tweet_created_at" row) as [[]|]; try done.
    destruct (dict_lookup "tweet_id" row) as [[]|]; try done.
    by injection Hocc as <-. }
  assert ("" ∈ key <$> out) as (g & Hg & Hgin)%list_elem_of_fmap.
  { apply Hkeys, list_elem_of_fmap. by exists o. }
  exists out, g. destruct (Hrows g Hgin) as (Hcount & _).
  rewrite <- Hg in Hcount. repeat split; [done..|].
  rewrite Hcount.
  assert (o ∈ group_of os "") as Hmem.
  { apply list_elem_of_filter. split; [by apply in_group_iff|done]. }
  destruct (group_of os "") as [|? ?]; [by apply elem_of_nil in Hmem|].
  simpl. lia.
Qed.

Section Reading.
Context `{Codecs}.

Lemma row_outcome_modelled row : row_outcome row <> Unmodelled.
Proof.
  unfold row_outcome, loads. destruct (json_loads row); [|done].
  apply process_row_modelled.
Qed.

Lemma read_rows_cons row rest ms anns :
  read_rows (row :: rest) ms anns
  = row_outcome row ≫= fun '(new_mentions, new_annotations) =>
      read_rows rest (ms ++ new_mentions) (anns ++ new_annotations).
Proof.
  unfold row_outcome. cbn [read_rows]. by destruct (loads row).
Qed.

(** The first line that raises ends the loop with its exception. *)
Lemma read_rows_raise pre row post e : forall ms anns,
  Forall (fun r => exists v, row_outcome r = Ok v) pre ->
  row_outcome row = Raise e ->
  read_rows (pre ++ row :: post)%list ms anns = Raise e.
Proof.
  induction pre as [|r pre IH]; intros ms anns Hpre Hrow.
  - rewrite app_nil_l, read_rows_cons, Hrow. done.
  - apply Forall_cons in Hpre as [[[m a] Hr] Hpre].
    rewrite <- app_comm_cons, read_rows_cons, Hr. simpl. by apply IH.
Qed.

(** A line that raises somewhere in the log makes the whole loop raise. *)
Lemma read_rows_fails rows row e : forall ms anns,
  row ∈ rows -> row_outcome row = Raise e ->
  exists e', read_rows rows ms anns = Raise e'.
Proof.
  induction rows as [|r rows IH]; intros ms anns Hin Hrow.
  { by apply elem_of_nil in Hin. }
  rewrite read_rows_cons.
  destruct (row_outcome r) as [[m a]|e'|] eqn:Hr; simpl.
  - apply elem_of_cons in Hin as [->|Hin]; [congruence|]. by apply IH.
  - by eexists.
  - by destruct (row_outcome_modelled r).
Qed.

Lemma process_results_raise (fs : FS) rows e :
  fs !! DATAPATH = Some rows ->
  read_rows rows [] [] = Raise e ->
  process_results fs = (Raise e, fs).
Proof.
  intros Hfs Hr. unfold process_results, summaries. by rewrite Hfs, Hr.
Qed.

(** ** C8 *)

(** C8. When a line of the log does not parse, [process_results] ends
    with an exception that nothing catches and leaves every file as it
    was, so no summary is written; the exception is the
    [JSONDecodeError] itself when the lines before it went through. *)
Theorem process_results_malformed_line (fs : FS) (pre post : list string)
  (row : string) :
  fs !! DATAPATH = Some (pre ++ row :: post)%list ->
  json_loads row = None ->
  (exists e, process_results fs = (Raise e, fs))
  /\ (Forall (fun r => exists v, row_outcome r = Ok v) pre ->
      process_results fs = (Raise JSONDecodeError, fs)).
Proof.
  intros Hfs Hrow.
  assert (row_outcome row = Raise JSONDecodeError) as Hout.
  { unfold row_outcome, loads. by rewrite Hrow. }
  split.
  - destruct (read_rows_fails (pre ++ row :: post)%list row JSONDecodeError
                [] []) as [e He]; [|done|].
    + apply elem_of_app. right. apply list_elem_of_here.
    + exists e. by eapply process_results_raise.
  - intros Hpre. eapply process_results_raise; [done|].
    by apply read_rows_raise.
Qed.

(** ** C2 *)

(** C2, what the code does instead. A line that decodes to a record
    without [entities] makes [process_results] raise and write nothing;
    with [created_at] and [id] present and the earlier lines accepted,
    the exception is the [AttributeError] of line 124. *)
Theorem process_results_without_entities (fs : FS)
  (pre post : list string) (row : string) (d : dict) :
  fs !! DATAPATH = Some (pre ++ row :: post)%list ->
  json_loads row = Some (PDict d) ->
  dict_lookup "entities" d = None ->
  (exists e, process_results fs = (Raise e, fs))
  /\ (Forall (fun r => exists v, row_outcome r = Ok v) pre ->
      is_Some (dict_lookup "created_at" d) ->
      is_Some (dict_lookup "id" d) ->
      process_results fs = (Raise AttributeError, fs)).
Proof.
  intros Hfs Hrow He.
  destruct (process_row_without_entities d He) as [[e0 He0] Hattr].
  assert (row_outcome row = process_row (PDict d)) as Hout.
  { unfold row_outcome, loads. by rewrite Hrow. }
  split.
  - destruct (read_rows_fails (pre ++ row :: post)%list row e0 [] [])
      as [e Hr]; [|congruence|].
    + apply elem_of_app. right. apply list_elem_of_here.
    + exists e. by eapply process_results_raise.
  - intros Hpre Hc Hi. eapply process_results_raise; [done|].
    apply read_rows_raise; [done|]. rewrite Hout. by apply Hattr.
Qed.

(** ** C3 *)

(** C3, what the code does instead. On an empty log both lists of rows
    are empty, [pd.DataFrame([])] has no column, and [groupby] raises
    [KeyError]: [process_results] fails and writes no file. *)
Theorem process_results_empty_log (fs : FS) :
  fs !! DATAPATH = Some [] ->
  process_results fs = (Raise KeyError, fs).
Proof.
  intros Hfs. unfold process_results. by rewrite Hfs.
Qed.

(** ** C9 *)

Lemma paths_distinct :
  MENTION_PATH <> DATAPATH /\ ANNOTATION_PATH <> DATAPATH
  /\ ANNOTATION_PATH <> MENTION_PATH.
Proof. by repeat split. Qed.

(** A run that succeeds has written exactly the two summaries. *)
Lemma process_results_ok (fs fs' : FS) :
  process_results fs = (Ok tt, fs') ->
  exists rows m a,
    fs !! DATAPATH = Some rows
    /\ summaries rows = Ok (m, a)
    /\ fs' = <[ANNOTATION_PATH := to_csv "normalized_text" a]>
               (<[MENTION_PATH := to_csv "username" m]> fs).
Proof.
  unfold process_results.
  destruct (fs !! DATAPATH) as [rows|]; [|by intros [=]].
  destruct (summaries rows) as [[m a]|e|] eqn:Hs; intros [= <-].
  by exists rows, m, a.
Qed.

(** C9. A run of [process_results] that succeeds leaves the log as it
    was; run again on what it left, it succeeds again and leaves every
    file, the two summaries included, exactly as the first run did; and
    any run over the same log writes the same two summaries. *)
Theorem process_results_rerun (fs fs' : FS) :
  process_results fs = (Ok tt, fs') ->
  fs' !! DATAPATH = fs !! DATAPATH
  /\ process_results fs' = (Ok tt, fs')
  /\ forall fs2 : FS,
       fs2 !! DATAPATH = fs !! DATAPATH ->
       exists fs2',
         process_results fs2 = (Ok tt, fs2')
         /\ fs2' !! MENTION_PATH = fs' !! MENTION_PATH
         /\ fs2' !! ANNOTATION_PATH = fs' !! ANNOTATION_PATH.
Proof.
  intros (rows & m & a & Hrows & Hsum & ->)%process_results_ok.
  destruct paths_distinct as (Hmd & Had & Ham).
  assert (forall fs2 : FS,
            fs2 !! DATAPATH = fs !! DATAPATH ->
            process_results fs2
            = (Ok tt, <[ANNOTATION_PATH := to_csv "normalized_text" a]>
                        (<[MENTION_PATH := to_csv "username" m]> fs2)))
    as Hrun.
  { intros fs2 Hlog. unfold process_results. by rewrite Hlog, Hrows, Hsum. }
  assert ((<[ANNOTATION_PATH := to_csv "normalized_text" a]>
             (<[MENTION_PATH := to_csv "username" m]> fs)) !! DATAPATH
          = fs !! DATAPATH) as Hlog.
  { by rewrite !lookup_insert_ne. }
  split; [done|]. split.
  - rewrite (Hrun _ Hlog). f_equal.
    rewrite (insert_insert_ne _ MENTION_PATH ANNOTATION_PATH) by done.
    by rewrite !insert_insert_eq.
  - intros fs2 Hlog2. eexists. split; [by apply Hrun|].
    rewrite !lookup_insert_eq.
    by rewrite !(lookup_insert_ne _ ANNOTATION_PATH MENTION_PATH),
      !lookup_insert_eq.
Qed.

(** ** C10 *)

(** Every row a line appends is in the lists the loop ends with. *)
Lemma read_rows_collects rows : forall ms anns all_mentions all_annotations,
  read_rows rows ms anns = Ok (all_mentions, all_annotations) ->
  (forall x, x ∈ ms -> x ∈ all_mentions)
  /\ (forall x, x ∈ anns -> x ∈ all_annotations)
  /\ forall row m a,
       row ∈ rows -> row_outcome row = Ok (m, a) ->
       (forall x, x ∈ m -> x ∈ all_mentions)
       /\ (forall x, x ∈ a -> x ∈ all_annotations).
Proof.
  induction rows as [|r rows IH]; intros ms anns all_m all_a Hr.
  - injection Hr as <- <-. split; [done|]. split; [done|].
    intros row m a Hin. by apply elem_of_nil in Hin.
  - rewrite read_rows_cons in Hr.
    destruct (row_outcome r) as [[m0 a0]|e|] eqn:Hout; [|done..].
    destruct (IH _ _ _ _ Hr) as (Hms & Hanns & Hrows).
    split; [intros x Hx; apply Hms, elem_of_app; by left|].
    split; [intros x Hx; apply Hanns, elem_of_app; by left|].
    intros row m a [->|Hin]%elem_of_cons Hrow.
    + rewrite Hout in Hrow. injection Hrow as <- <-.
      split; intros x Hx; [apply Hms|apply Hanns];
        apply elem_of_app; by right.
    + by eapply Hrows.
Qed.

(** C10. A record with an [entities] dict appends one row per mention
    and one per annotation, none skipped and nothing raised; a mention
    without [username], or an annotation without [normalized_text],
    gets the empty string as its grouping key; and once the log is read,
    such a row is counted in the group of the empty string of the
    summary. *)
Theorem missing_key_grouped_under_empty_string :
  (forall d c i ms anns,
     record_carries d c i ms anns ->
     process_row (PDict d)
     = Ok (mention_of c i <$> ms, annotation_of c i <$> anns))
  /\ (forall c i m,
        dict_lookup "username" m = None ->
        dict_lookup "username" (mention_of c i m) = Some (PStr ""))
  /\ (forall c i a,
        dict_lookup "normalized_text" a = None ->
        dict_lookup "normalized_text" (annotation_of c i a)
        = Some (PStr ""))
  /\ (forall rows row d c i ms anns m all_mentions all_annotations os,
        read_rows rows [] [] = Ok (all_mentions, all_annotations) ->
        row ∈ rows -> json_loads row = Some (PDict d) ->
        record_carries d c i ms anns ->
        m ∈ ms -> dict_lookup "username" m = None ->
        occurrences "username" all_mentions = Some os ->
        exists out g,
          group_dataframe all_mentions "username" = Ok out
          /\ g ∈ out /\ key g = ""
          /\ count g = length (group_of os "")
          /\ (1 <= count g)%nat)
  /\ (forall rows row d c i ms anns a all_mentions all_annotations os,
        read_rows rows [] [] = Ok (all_mentions, all_annotations) ->
        row ∈ rows -> json_loads row = Some (PDict d) ->
        record_carries d c i ms anns ->
        a ∈ anns -> dict_lookup "normalized_text" a = None ->
        occurrences "normalized_text" all_annotations = Some os ->
        exists out g,
          group_dataframe all_annotations "normalized_text" = Ok out
          /\ g ∈ out /\ key g = ""
          /\ count g = length (group_of os "")
          /\ (1 <= count g)%nat).
Proof.
  assert (forall rows row d c i ms anns all_mentions all_annotations,
            read_rows rows [] [] = Ok (all_mentions, all_annotations) ->
            row ∈ rows -> json_loads row = Some (PDict d) ->
            record_carries d c i ms anns ->
            (forall m, m ∈ ms -> mention_of c i m ∈ all_mentions)
            /\ (forall a, a ∈ anns -> annotation_of c i a ∈ all_annotations))
    as Hkept.
  { intros rows row d c i ms anns all_m all_a Hread Hin Hloads Hrec.
    destruct (read_rows_collects rows [] [] all_m all_a Hread)
      as (_ & _ & Hrows).
    destruct (Hrows row (mention_of c i <$> ms) (annotation_of c i <$> anns)
                Hin) as [Hm Ha].
    { unfold row_outcome, loads. rewrite Hloads.
      by apply process_row_entities. }
    split; intros x Hx; [apply Hm|apply Ha];
      apply list_elem_of_fmap; by exists x. }
  split; [exact process_row_entities|].
  split; [intros c i m Hm; simpl; by rewrite Hm|].
  split; [intros c i a Ha; simpl; by rewrite Ha|].
  split.
  - intros rows row d c i ms anns m all_m all_a os
      Hread Hin Hloads Hrec Hm Hnone Hos.
    destruct (Hkept _ _ _ _ _ _ _ _ _ Hread Hin Hloads Hrec) as [Hmem _].
    apply (empty_key_group all_m "username" os (mention_of c i m));
      [done|by apply Hmem|]. simpl. by rewrite Hnone.
  - intros rows row d c i ms anns a all_m all_a os
      Hread Hin Hloads Hrec Ha Hnone Hos.
    destruct (Hkept _ _ _ _ _ _ _ _ _ Hread Hin Hloads Hrec) as [_ Hmem].
    apply (empty_key_group all_a "normalized_text" os (annotation_of c i a));
      [done|by apply Hmem|]. simpl. by rewrite Hnone.
Qed.

End Reading.

(** The third scenario of the specification, every record carrying its
    [entities]: alice twice, last in tweet 20; rust once. *)
Example summaries_sample :
  @summaries sample_codecs ["tweet 10"; "tweet 20"; "tweet 30"]
  = Ok ([mkSummaryRow "alice" 2 "2023-01-02T10:00:00.000Z"
           "https://twitter.com/robotventures/status/20"],
        [mkSummaryRow "rust" 1 "2023-01-02T10:00:00.000Z"
           "https://twitter.com/robotventures/status/20"]).
Proof. vm_compute. reflexivity. Qed.

(** Tweets with mentions and no annotation anywhere: the annotation
    frame has no column and the run fails as on an empty log. *)
Example summaries_no_annotation :
  @summaries sample_codecs ["tweet 10"; "tweet 30"] = Raise KeyError.
Proof. vm_compute. reflexivity. Qed.

Lemma process_results_malformed_line_witness :
  let fs := log_of ["tweet 10"; "not json"; "tweet 20"] in
  (exists e, @process_results sample_codecs fs = (Raise e, fs))
  /\ (Forall (fun r => exists v, @row_outcome sample_codecs r = Ok v)
        ["tweet 10"] ->
      @process_results sample_codecs fs = (Raise JSONDecodeError, fs)).
Proof.
  apply (@process_results_malformed_line sample_codecs
           (log_of ["tweet 10"; "not json"; "tweet 20"])
           ["tweet 10"] ["tweet 20"] "not json"); reflexivity.
Defined.

Lemma process_results_without_entities_witness :
  let fs := log_of ["tweet 10"; "tweet 40"] in
  (exists e, @process_results sample_codecs fs = (Raise e, fs))
  /\ (Forall (fun r => exists v, @row_outcome sample_codecs r = Ok v)
        ["tweet 10"] ->
      is_Some (dict_lookup "created_at"
                 [("id", PStr "40");
                  ("created_at", PStr "2023-01-04T10:00:00.000Z");
                  ("text", PStr "hello")]) ->
      is_Some (dict_lookup "id"
                 [("id", PStr "40");
                  ("created_at", PStr "2023-01-04T10:00:00.000Z");
                  ("text", PStr "hello")]) ->
      @process_results sample_codecs fs = (Raise AttributeError, fs)).
Proof.
  apply (@process_results_without_entities sample_codecs
           (log_of ["tweet 10"; "tweet 40"]) ["tweet 10"] [] "tweet 40");
    reflexivity.
Defined.

Lemma process_results_empty_log_witness :
  @process_results sample_codecs (log_of [])
  = (Raise KeyError, log_of []).
Proof.
  apply (@process_results_empty_log sample_codecs (log_of [])).
  reflexivity.
Defined.

Lemma process_results_rerun_witness :
  let fs := log_of ["tweet 10"; "tweet 20"; "tweet 30"] in
  let fs' := (@process_results sample_codecs fs).2 in
  fs' !! DATAPATH = fs !! DATAPATH
  /\ @process_results sample_codecs fs' = (Ok tt, fs')
  /\ forall fs2 : FS,
       fs2 !! DATAPATH = fs !! DATAPATH ->
       exists fs2',
         @process_results sample_codecs fs2 = (Ok tt, fs2')
         /\ fs2' !! MENTION_PATH = fs' !! MENTION_PATH
         /\ fs2' !! ANNOTATION_PATH = fs' !! ANNOTATION_PATH.
Proof.
  apply (@process_results_rerun sample_codecs
           (log_of ["tweet 10"; "tweet 20"; "tweet 30"])).
  vm_compute. reflexivity.
Defined.

Example group_dataframe_sample :
  group_dataframe sample_frame "username"
  = Ok [mkSummaryRow "alice" 2 "2023-01-02T10:00:00.000Z"
          "https://twitter.com/robotventures/status/20";
        mkSummaryRow "bob" 1 "2023-01-01T12:00:00.000Z"
          "https://twitter.com/robotventures/status/15"].
Proof. vm_compute. reflexivity. Qed.

Lemma group_dataframe_last_id_as_text_witness :
  exists out,
    group_dataframe sample_frame "username" = Ok out
    /\ NoDup (key <$> out)
    /\ (forall k, k ∈ key <$> out <-> k ∈ occ_key <$> sample_occurrences)
    /\ (forall r, r ∈ out ->
          count r = length (group_of sample_occurrences (key r))
          /\ is_max (last_tweeted_at r)
               (occ_created_at <$> group_of sample_occurrences (key r))
          /\ exists m,
               is_max m (occ_id <$> group_of sample_occurrences (key r))
               /\ last_tweet_url r
                  = "https://twitter.com/robotventures/status/" +:+ m)
    /\ sum_list_with count out = length sample_frame
    /\ StronglySorted by_count_desc out.
Proof.
  apply (proj1 group_dataframe_last_id_as_text sample_frame "username"
           sample_occurrences); [discriminate|reflexivity].
Defined.

(** A mention without [username] in a tweet of its own. *)
Lemma missing_key_grouped_under_empty_string_witness :
  process_row tweet50
  = Ok ([[("username", PStr "");
          ("tweet_created_at", PStr "2023-01-05T10:00:00.000Z");
          ("tweet_id", PStr "50")]], []).
Proof.
  apply (proj1 (@missing_key_grouped_under_empty_string sample_codecs)
           [("id", PStr "50");
            ("created_at", PStr "2023-01-05T10:00:00.000Z");
            ("entities",
             PDict [("mentions", PList [PDict [("start", PInt 0)]])])]
           (PStr "2023-01-05T10:00:00.000Z") (PStr "50")
           [[("start", PInt 0)]] []).
  exists [("mentions", PList [PDict [("start", PInt 0)]])].
  repeat split; reflexivity.
Defined.

(** The mention frame of that tweet: one group, under the empty
    string. *)
Example group_dataframe_empty_key :
  group_dataframe
    [[("username", PStr "");
      ("tweet_created_at", PStr "2023-01-05T10:00:00.000Z");
      ("tweet_id", PStr "50")]] "username"
  = Ok [mkSummaryRow "" 1 "2023-01-05T10:00:00.000Z"
          "https://twitter.com/robotventures/status/50"].
Proof. vm_compute. reflexivity. Qed.

End AggregationFacts.

(** * More on search_tweets *)

Module PaginationExtra.
Import Pagination Program PaginationFacts.

(** ** Stamping *)

Lemma dict_lookup_set_eq k v (d : dict) :
  dict_lookup k (dict_set k v d) = Some v.
Proof.
  induction d as [|[k' v'] d IH]; simpl.
  - by rewrite String.eqb_refl.
  - destruct (String.eqb k k') eqn:Hk; simpl; [by rewrite String.eqb_refl|].
    by rewrite Hk.
Qed.

Lemma dict_lookup_set_ne k k' v (d : dict) :
  k' <> k -> dict_lookup k' (dict_set k v d) = dict_lookup k' d.
Proof.
  intros Hne. induction d as [|[k0 v0] d IH]; simpl.
  - by apply String.eqb_neq in Hne as ->.
  - destruct (String.eqb_spec k k0) as [->|Hk]; simpl.
    + by apply String.eqb_neq in Hne as ->.
    + by rewrite IH.
Qed.

Lemma yield_all_elem next_token results y :
  y ∈ (yield_all next_token results).1 ->
  exists d, Tweet d ∈ results
            /\ y = dict_set "next_token" (token_val next_token) d.
Proof.
  induction results as [|[|d] rest IH]; simpl.
  - by intros ?%elem_of_nil.
  - by intros ?%elem_of_nil.
  - destruct (yield_all next_token rest) as [ys ok]; simpl in *.
    intros [->|Hin]%elem_of_cons.
    + exists d. split; [apply list_elem_of_here|done].
    + destruct (IH Hin) as (d' & Hd' & ->).
      exists d'. split; [by apply list_elem_of_further|done].
Qed.

(** What a page yields comes from the results of its response. *)
Lemma page_yield_elem result_count st response y :
  y ∈ (page result_count st response).1 ->
  exists t results d,
    get_next_token response = inr t
    /\ data response = DataList results
    /\ Tweet d ∈ results
    /\ y = dict_set "next_token" (token_val t) d.
Proof.
  unfold page. destruct (get_next_token response) as [e|t]; simpl.
  { by intros ?%elem_of_nil. }
  destruct (data response) as [| |results]; simpl;
    [by intros ?%elem_of_nil..|].
  pose proof (yield_all_elem t results y) as Hy.
  destruct (yield_all t results) as [ys ok]; simpl in *.
  intros Hin. assert (y ∈ ys) as Hin' by (by destruct ok).
  destruct (Hy Hin') as (d & Hd & ->). by exists t, results, d.
Qed.

Lemma loop_yield_elem client result_count fuel : forall n st y,
  y ∈ yielded (loop fuel client result_count n st) ->
  exists j stj t results d,
    requests (loop fuel client result_count n st) !! j = Some stj
    /\ get_next_token
         (client (n + j)%nat (max_results result_count)
            (pagination_token stj)) = inr t
    /\ data (client (n + j)%nat (max_results result_count)
               (pagination_token stj)) = DataList results
    /\ Tweet d ∈ results
    /\ y = dict_set "next_token" (token_val t) d.
Proof.
  induction fuel as [|fuel IH]; intros n st y; simpl.
  { by intros ?%elem_of_nil. }
  set (response :=
         client n (max_results result_count) (pagination_token st)).
  pose proof (page_yield_elem result_count st response y) as Hpage.
  destruct (page result_count st response) as [ys [st'|w]]; simpl in *.
  - intros [Hin|Hin]%elem_of_app.
    + destruct (Hpage Hin) as (t & results & d & ?).
      exists 0%nat, st, t, results, d. by rewrite Nat.add_0_r.
    + destruct (IH (S n) st' y Hin) as (j & stj & t & results & d & Hj & ?).
      exists (S j), stj, t, results, d.
      by rewrite Nat.add_succ_r.
  - intros Hin. destruct (Hpage Hin) as (t & results & d & ?).
    exists 0%nat, st, t, results, d. by rewrite Nat.add_0_r.
Qed.

(** X1. Everything [search_tweets] yields is a dict of a tweet that the
    upstream sent in answer to one of the requests of the run, with the
    [next_token] of that answer stored under ["next_token"] and every
    other key as the upstream had it. *)
Theorem search_tweets_yields_stamped (fuel : nat) (client : Upstream)
  (result_count : Z) (y : dict) :
  y ∈ yielded (search_tweets fuel client result_count) ->
  exists j st t results d,
    requests (search_tweets fuel client result_count) !! j = Some st
    /\ get_next_token
         (client j (max_results result_count) (pagination_token st)) = inr t
    /\ data (client j (max_results result_count) (pagination_token st))
       = DataList results
    /\ Tweet d ∈ results
    /\ dict_lookup "next_token" y = Some (token_val t)
    /\ forall k, k <> "next_token" -> dict_lookup k y = dict_lookup k d.
Proof.
  intros Hin. unfold search_tweets in *.
  destruct (loop_yield_elem client result_count fuel 0%nat initial y Hin)
    as (j & st & t & results & d & Hj & Ht & Hd & Hmem & ->).
  exists j, st, t, results, d. repeat split; try done.
  - apply dict_lookup_set_eq.
  - intros k Hk. by apply dict_lookup_set_ne.
Qed.

Lemma search_tweets_yields_stamped_witness :
  exists j st t results d,
    requests (search_tweets 3 repeats_A 5) !! j = Some st
    /\ get_next_token (repeats_A j (max_results 5) (pagination_token st))
       = inr t
    /\ data (repeats_A j (max_results 5) (pagination_token st))
       = DataList results
    /\ Tweet d ∈ results
    /\ dict_lookup "next_token" [("id", PStr "1"); ("next_token", PStr "A")]
       = Some (token_val t)
    /\ forall k, k <> "next_token" ->
         dict_lookup k [("id", PStr "1"); ("next_token", PStr "A")]
         = dict_lookup k d.
Proof.
  apply (search_tweets_yields_stamped 3 repeats_A 5).
  vm_compute. apply list_elem_of_here.
Defined.

(** ** The state from one request to the next *)

Lemma loop_head client result_count fuel n st :
  forall st0,
    requests (loop fuel client result_count n st) !! 0%nat = Some st0 ->
    st0 = st.
Proof.
  destruct fuel as [|fuel]; simpl; [done|].
  destruct (page result_count st _) as [ys [st'|w]]; simpl; congruence.
Qed.

Lemma loop_next client result_count fuel : forall n st j stj stj',
  let r := loop fuel client result_count n st in
  requests r !! j = Some stj ->
  requests r !! S j = Some stj' ->
  exists s results,
    get_next_token
      (client (n + j)%nat (max_results result_count) (pagination_token stj))
    = inr (Some s)
    /\ data (client (n + j)%nat (max_results result_count)
               (pagination_token stj)) = DataList results
    /\ Forall (fun x => x <> NoData) results
    /\ stj' = mkState (Some s) (count stj + Z.of_nat (length results))
                ({[ s ]} ∪ pagination_tokens stj)
    /\ Some s <> pagination_token stj
    /\ (s ∉ pagination_tokens stj)
    /\ count stj' < result_count.
Proof.
  induction fuel as [|fuel IH]; intros n st j stj stj'; simpl; [done|].
  destruct (page result_count st _) as [ys [st'|w]] eqn:Hp; simpl.
  2:{ by destruct j. }
  destruct j as [|j]; simpl.
  - intros [= <-] Hnext. apply loop_head in Hnext as ->.
    apply page_continues in Hp
      as (s & results & Ht & Hd & Hy & -> & Hne & Hnin & Hlt).
    rewrite Nat.add_0_r. exists s, results.
    pose proof (yield_all_complete _ _ _ Hy) as Hlen.
    repeat split; try done; [|by rewrite <- Hlen].
    clear -Hy. revert ys Hy.
    induction results as [|[|d] rest IHr]; intros ys; simpl.
    + constructor.
    + by intros [=].
    + destruct (yield_all (Some s) rest) as [ys0 ok].
      intros [= <- ->]. constructor; [done|]. by eapply IHr.
  - intros Hj Hj'. rewrite Nat.add_succ_r.
    by apply (IH (S n) st' j stj stj').
Qed.

(** X2. The first request of a run carries no token and a count of
    zero.  Each later request carries the token that the answer to the
    request before it returned, a [str] that is neither the token of
    that request nor among the tokens recorded at it; that answer was a
    list of readable results, all of which were counted and the token
    recorded; and fewer than [result_count] dicts were counted when the
    later request was made. *)
Theorem search_tweets_next_request (fuel : nat) (client : Upstream)
  (result_count : Z) :
  let r := search_tweets fuel client result_count in
  (forall st, requests r !! 0%nat = Some st -> st = initial)
  /\ forall j st st',
       requests r !! j = Some st ->
       requests r !! S j = Some st' ->
       exists s results,
         get_next_token
           (client j (max_results result_count) (pagination_token st))
         = inr (Some s)
         /\ data (client j (max_results result_count) (pagination_token st))
            = DataList results
         /\ Forall (fun x => x <> NoData) results
         /\ st' = mkState (Some s) (count st + Z.of_nat (length results))
                    ({[ s ]} ∪ pagination_tokens st)
         /\ Some s <> pagination_token st
         /\ (s ∉ pagination_tokens st)
         /\ count st' < result_count.
Proof.
  simpl. unfold search_tweets. split.
  - apply loop_head.
  - intros j st st' Hj Hj'.
    apply (loop_next client result_count fuel 0%nat initial j st st' Hj Hj').
Qed.

Lemma search_tweets_next_request_witness :
  exists s results,
    get_next_token (repeats_A 0%nat (max_results 5) None) = inr (Some s)
    /\ data (repeats_A 0%nat (max_results 5) None) = DataList results
    /\ Forall (fun x => x <> NoData) results
    /\ mkState (Some "A") 1 ({[ "A" ]} ∪ ∅)
       = mkState (Some s) (0 + Z.of_nat (length results)) ({[ s ]} ∪ ∅)
    /\ Some s <> None
    /\ (s ∉ (∅ : gset string))
    /\ 1 < 5.
Proof.
  apply (proj2 (search_tweets_next_request 3 repeats_A 5) 0%nat initial
           (mkState (Some "A") 1 ({[ "A" ]} ∪ ∅))); reflexivity.
Defined.

(** ** A budget that is not positive *)

(** X3. With [result_count <= 0] a run makes exactly one page request,
    whatever the upstream answers: the loop ends on that page, after
    yielding what it holds. *)
Theorem search_tweets_no_budget (fuel : nat) (client : Upstream)
  (result_count : Z) :
  result_count <= 0 ->
  (1 <= fuel)%nat ->
  exists why,
    stop (search_tweets fuel client result_count) = Some why
    /\ requests (search_tweets fuel client result_count) = [initial]
    /\ yielded (search_tweets fuel client result_count)
       = (page result_count initial
            (client 0%nat (max_results result_count) None)).1.
Proof.
  intros Hrc Hf. unfold search_tweets.
  destruct fuel as [|fuel]; [lia|]. cbn [loop].
  change (pagination_token initial) with (@None string).
  destruct (page result_count initial _) as [ys [st'|w]] eqn:Hp.
  - apply page_continues in Hp as (s & results & _ & _ & _ & -> & _ & _ & Hlt).
    simpl in Hlt. lia.
  - by exists w.
Qed.

Lemma search_tweets_no_budget_witness :
  exists why,
    stop (search_tweets 4 one_per_page 0) = Some why
    /\ requests (search_tweets 4 one_per_page 0) = [initial]
    /\ yielded (search_tweets 4 one_per_page 0)
       = (page 0 initial (one_per_page 0%nat (max_results 0) None)).1.
Proof. apply (search_tweets_no_budget 4 one_per_page 0); lia. Defined.

(** ** The budget reached *)

Lemma page_count_reached result_count st response ys :
  page result_count st response = (ys, inr ResultCountReached) ->
  result_count <= count st + Z.of_nat (length ys).
Proof.
  unfold page, advance.
  destruct (get_next_token response) as [e|t]; [by intros [=]|].
  destruct (data response) as [| |results]; [by intros [=]..|].
  destruct (yield_all t results) as [ys0 ok].
  destruct ok; [|by intros [=]].
  destruct (token_eqb _ _); [by intros [=]|].
  destruct (token_in _ _); [by intros [=]|].
  destruct t as [s|]; [|by intros [=]].
  destruct (Z.leb_spec result_count (count st + Z.of_nat (length ys0)));
    intros [= <-]; lia.
Qed.

Lemma loop_count_reached client result_count fuel : forall n st,
  stop (loop fuel client result_count n st) = Some ResultCountReached ->
  result_count
  <= count st
     + Z.of_nat (length (yielded (loop fuel client result_count n st))).
Proof.
  induction fuel as [|fuel IH]; intros n st; simpl; [done|].
  destruct (page result_count st _) as [ys [st'|w]] eqn:Hp; simpl.
  - intros Hs. apply IH in Hs.
    apply page_continues in Hp as (s & results & _ & _ & _ & -> & _).
    simpl in Hs. rewrite length_app. lia.
  - intros [= ->]. by eapply page_count_reached.
Qed.

(** X4. When a run ends because the count reached [result_count], at
    least [result_count] dicts were yielded. *)
Theorem search_tweets_budget_reached (fuel : nat) (client : Upstream)
  (result_count : Z) :
  stop (search_tweets fuel client result_count) = Some ResultCountReached ->
  result_count
  <= Z.of_nat (length (yielded (search_tweets fuel client result_count))).
Proof.
  intros Hs.
  apply (loop_count_reached client result_count fuel 0%nat initial) in Hs.
  simpl in Hs. unfold search_tweets. lia.
Qed.

Lemma search_tweets_budget_reached_witness :
  5 <= Z.of_nat (length (yielded (search_tweets 7 one_per_page 5))).
Proof.
  apply (search_tweets_budget_reached 7 one_per_page 5).
  vm_compute. reflexivity.
Defined.

(** ** Tokens from a finite stock *)

Lemma loop_finite_tokens (T : gset string) client result_count :
  tokens_within T client result_count ->
  forall fuel n st,
    (size (T ∖ pagination_tokens st) < fuel)%nat ->
    exists why,
      stop (loop fuel client result_count n st) = Some why
      /\ (length (requests (loop fuel client result_count n st))
          <= size (T ∖ pagination_tokens st) + 1)%nat.
Proof.
  intros HT. induction fuel as [|fuel IH]; intros n st Hsize; [lia|].
  simpl.
  destruct (page result_count st _) as [ys [st'|w]] eqn:Hp; simpl.
  2:{ exists w. split; [done|lia]. }
  apply page_continues in Hp
    as (s & results & Ht & _ & _ & -> & _ & Hnin & _).
  apply HT in Ht. set (st' := mkState _ _ _).
  assert (size (T ∖ pagination_tokens st')
          < size (T ∖ pagination_tokens st))%nat as Hlt.
  { apply subset_size. simpl. split.
    - intros x. rewrite !elem_of_difference, elem_of_union. tauto.
    - intros Hsub. specialize (Hsub s).
      rewrite !elem_of_difference, elem_of_union, elem_of_singleton in Hsub.
      tauto. }
  destruct (IH (S n) st') as (why & Hs & Hl); [lia|].
  exists why. split; [done|lia].
Qed.

(** X5. When every token the upstream hands out belongs to a finite set
    [T], the run ends, and it makes at most [size T + 1] page requests:
    a token can be followed only once. *)
Theorem search_tweets_finite_tokens (T : gset string) (client : Upstream)
  (result_count : Z) :
  tokens_within T client result_count ->
  exists fuel why,
    stop (search_tweets fuel client result_count) = Some why
    /\ (length (requests (search_tweets fuel client result_count))
        <= size T + 1)%nat.
Proof.
  intros HT. unfold search_tweets.
  destruct (loop_finite_tokens T client result_count HT
              (S (size T)) 0%nat initial) as (why & Hs & Hl).
  - simpl. rewrite difference_empty_L. lia.
  - exists (S (size T)), why. split; [done|].
    simpl in Hl. rewrite difference_empty_L in Hl. done.
Qed.

Lemma search_tweets_finite_tokens_witness :
  exists fuel why,
    stop (search_tweets fuel repeats_A 5) = Some why
    /\ (length (requests (search_tweets fuel repeats_A 5))
        <= size ({[ "A" ]} : gset string) + 1)%nat.
Proof.
  apply (search_tweets_finite_tokens {[ "A" ]} repeats_A 5).
  intros n tok s [= <-]. by apply elem_of_singleton.
Defined.

(** ** A token that was used before *)

(** The tokens recorded only grow, and the token of a request is among
    those recorded at every later request. *)
Lemma loop_known_token client result_count fuel : forall n st j stj t,
  requests (loop fuel client result_count n st) !! j = Some stj ->
  (t = None \/ exists s, t = Some s /\ s ∈ pagination_tokens st) ->
  get_next_token
    (client (n + j)%nat (max_results result_count) (pagination_token stj))
  = inr t ->
  length (requests (loop fuel client result_count n st)) = S j.
Proof.
  induction fuel as [|fuel IH]; intros n st j stj t; simpl; [done|].
  destruct (page result_count st _) as [ys [st'|w]] eqn:Hp; simpl.
  2:{ by destruct j. }
  pose proof Hp as Hc. apply page_continues in Hc
    as (s & results & Ht & _ & _ & -> & Hne & Hnin & _).
  destruct j as [|j]; simpl.
  - intros [= <-] Hknown Hnext. rewrite Nat.add_0_r in Hnext.
    rewrite Ht in Hnext. injection Hnext as <-.
    destruct Hknown as [?|(s' & [= <-] & Hin)]; done.
  - intros Hj Hknown Hnext. rewrite Nat.add_succ_r in Hnext. f_equal.
    apply (IH (S n) _ j stj t Hj); [|done].
    destruct Hknown as [->|(s' & -> & Hin)]; [by left|right].
    exists s'. split; [done|]. simpl. by apply elem_of_union_r.
Qed.

Lemma loop_used_token client result_count fuel : forall n st i j sti stj,
  recorded st ->
  let r := loop fuel client result_count n st in
  requests r !! i = Some sti ->
  requests r !! j = Some stj ->
  (i <= j)%nat ->
  get_next_token
    (client (n + j)%nat (max_results result_count) (pagination_token stj))
  = inr (pagination_token sti) ->
  length (requests r) = S j.
Proof.
  induction fuel as [|fuel IH]; intros n st i j sti stj Hrec; [done|].
  intros r Hi Hj Hij Hnext.
  destruct i as [|i].
  - apply loop_head in Hi as ->.
    apply (loop_known_token client result_count (S fuel) n st j stj
             (pagination_token st) Hj); [|done].
    destruct (pagination_token st) as [s|] eqn:Hs; [right|by left].
    exists s. split; [done|]. by apply Hrec.
  - destruct j as [|j]; [lia|]. subst r. simpl in *.
    destruct (page result_count st _) as [ys [st'|w]] eqn:Hp; simpl in *.
    2:{ done. }
    apply page_continues in Hp
      as (s & results & _ & _ & _ & -> & _ & _ & _).
    rewrite Nat.add_succ_r in Hnext. f_equal.
    apply (IH (S n) _ i j sti stj); [|done|done|lia|done].
    intros s' [= <-]. simpl. by apply elem_of_union_l, elem_of_singleton_2.
Qed.

(** X6. When the answer to a request returns a token that this request
    or an earlier one of the run was sent with (the [None] of the first
    request included), no further request is made. *)
Theorem search_tweets_used_token_ends (fuel : nat) (client : Upstream)
  (result_count : Z) (i j : nat) (sti stj : State) :
  let r := search_tweets fuel client result_count in
  requests r !! i = Some sti ->
  requests r !! j = Some stj ->
  (i <= j)%nat ->
  get_next_token
    (client j (max_results result_count) (pagination_token stj))
  = inr (pagination_token sti) ->
  length (requests r) = S j.
Proof.
  intros r Hi Hj Hij Hnext.
  apply (loop_used_token client result_count fuel 0%nat initial i j sti stj
           recorded_initial Hi Hj Hij Hnext).
Qed.

Lemma search_tweets_used_token_ends_witness :
  length (requests (search_tweets 6 repeats_A 5)) = 2%nat.
Proof.
  apply (search_tweets_used_token_ends 6 repeats_A 5 1 1
           (mkState (Some "A") 1 ({[ "A" ]} ∪ ∅))
           (mkState (Some "A") 1 ({[ "A" ]} ∪ ∅)));
    [reflexivity|reflexivity|lia|reflexivity].
Defined.

(** ** A run that goes on only from full pages *)

(** [full_then_cycle] has a short page with a [str] token, yet the run
    never goes on from it: the token was followed before. *)
Lemma full_then_cycle_continuing : continuing_pages_full full_then_cycle 250.
Proof.
  intros fuel j st st' results Hj Hj' Hd.
  destruct (decide (j < 2)%nat) as [Hlt|Hge].
  { unfold full_then_cycle in Hd.
    apply Nat.ltb_lt in Hlt. rewrite Hlt in Hd. injection Hd as <-.
    vm_compute. discriminate. }
  exfalso.
  set (r := search_tweets fuel full_then_cycle 250) in *.
  assert (is_Some (requests r !! 2%nat)) as [st2 H2].
  { apply lookup_lt_is_Some. apply lookup_lt_Some in Hj. lia. }
  assert (is_Some (requests r !! 1%nat)) as [st1 H1].
  { apply lookup_lt_is_Some. apply lookup_lt_Some in H2. lia. }
  assert (is_Some (requests r !! 0%nat)) as [st0 H0].
  { apply lookup_lt_is_Some. apply lookup_lt_Some in H2. lia. }
  destruct (loop_next full_then_cycle 250 fuel 0%nat initial 0%nat st0 st1
              H0 H1) as (s & res & Ht & _ & _ & -> & _).
  injection Ht as <-.
  pose proof (loop_used_token full_then_cycle 250 fuel 0%nat initial
                1%nat 2%nat _ st2 recorded_initial H1 H2 ltac:(lia)
                eq_refl) as Hlen.
  apply lookup_lt_Some in Hj'. unfold r, search_tweets in *.
  cbv zeta in Hlen. lia.
Qed.

End PaginationExtra.

(** * More on process_results and group_dataframe *)

Module AggregationExtra.
Import Aggregation Program AggregationFacts PaginationExtra.
Local Open Scope list_scope.

(** ** Lines that the loop body rejects *)

Lemma process_row_stamped (v : pyval) (d : dict) :
  process_row (PDict (dict_set "next_token" v d)) = process_row (PDict d).
Proof.
  unfold process_row. cbn [py_get py_item].
  by rewrite !dict_lookup_set_ne.
Qed.

(** X7. The [next_token] that [search_tweets] stores in a dict changes
    nothing of what [process_results] takes from it: the stamped dict
    gives the same rows, or the same exception, as the dict the
    upstream sent. *)
Theorem process_row_ignores_stamp (v : pyval) (d : dict) :
  process_row (PDict (dict_set "next_token" v d)) = process_row (PDict d).
Proof.
  unfold process_row. cbn [py_get py_item].
  by rewrite !dict_lookup_set_ne.
Qed.

(** ** Frames in another order *)

Lemma is_max_unique m m' l : is_max m l -> is_max m' l -> m = m'.
Proof.
  intros [Hin Hub] [Hin' Hub']. apply (anti_symm String.le); auto.
Qed.

Lemma max_str_perm l l' : l ≡ₚ l' -> max_str l = max_str l'.
Proof.
  intros Hp. destruct l as [|x l].
  { apply Permutation_nil_l in Hp as <-. done. }
  destruct l' as [|x' l'].
  { by apply Permutation_nil_r in Hp. }
  apply (is_max_unique _ _ (x :: l)); [by apply max_str_is_max|].
  destruct (max_str_is_max (x' :: l')) as [Hin Hub]; [done|].
  split; [by rewrite Hp|]. intros y Hy. apply Hub. by rewrite <- Hp.
Qed.

Lemma aggregate_perm os os' k : os ≡ₚ os' -> aggregate os k = aggregate os' k.
Proof.
  intros Hp. unfold aggregate.
  assert (group_of os k ≡ₚ group_of os' k) as Hg.
  { unfold group_of. by rewrite Hp. }
  f_equal.
  - by rewrite Hg.
  - apply max_str_perm. change (map occ_created_at ?l)
      with (occ_created_at <$> l). by rewrite Hg.
  - f_equal. apply max_str_perm. change (map occ_id ?l)
      with (occ_id <$> l). by rewrite Hg.
Qed.

Lemma group_keys_perm os os' : os ≡ₚ os' -> group_keys os = group_keys os'.
Proof.
  intros Hp.
  apply (StronglySorted_unique_strong str_lt);
    [|apply group_keys_sorted..|].
  - intros x y _ _ [Hxy _] [Hyx _]. by apply (anti_symm String.le).
  - apply NoDup_Permutation; [apply group_keys_NoDup..|].
    intros k. rewrite !group_keys_elem. by rewrite Hp.
Qed.

Lemma occurrences_perm field df df' : df ≡ₚ df' ->
  forall os, occurrences field df = Some os ->
  exists os', occurrences field df' = Some os' /\ os ≡ₚ os'.
Proof.
  induction 1 as [|r df df' Hp IH|r1 r2 df|df1 df2 df3 Hp1 IH1 Hp2 IH2];
    intros os Hos; simpl in *.
  - exists os. by split.
  - destruct (occurrence field r) as [o|]; [|done].
    destruct (occurrences field df) as [os0|]; [|done].
    injection Hos as <-. destruct (IH os0 eq_refl) as (os' & -> & Hp').
    exists (o :: os'). split; [done|]. by constructor.
  - destruct (occurrence field r2) as [o2|]; [|done].
    destruct (occurrence field r1) as [o1|]; [|done].
    destruct (occurrences field df) as [os0|]; [|done].
    injection Hos as <-. exists (o1 :: o2 :: os0). split; [done|].
    apply perm_swap.
  - destruct (IH1 os Hos) as (os2 & Hos2 & Hp12).
    destruct (IH2 os2 Hos2) as (os3 & Hos3 & Hp23).
    exists os3. split; [done|]. by etrans.
Qed.

Lemma group_dataframe_Ok df field out :
  group_dataframe df field = Ok out ->
  df <> [] /\ exists os, occurrences field df = Some os.
Proof.
  unfold group_dataframe. destruct df as [|r df]; [done|].
  destruct (negb _); [done|]. destruct (negb _); [done|].
  destruct (negb _); [done|].
  destruct (occurrences field (r :: df)) as [os|]; [|done].
  intros _. split; [done|by exists os].
Qed.

Lemma group_dataframe_perm df df' field out :
  df ≡ₚ df' ->
  group_dataframe df field = Ok out ->
  group_dataframe df' field = Ok out.
Proof.
  intros Hp Hout.
  destruct (group_dataframe_Ok df field out Hout) as (Hne & os & Hos).
  destruct (occurrences_perm field df df' Hp os Hos) as (os' & Hos' & Hpo).
  assert (df' <> []) as Hne'.
  { intros ->. by apply Permutation_nil_r in Hp. }
  rewrite (group_dataframe_ok df field os Hne Hos) in Hout.
  rewrite (group_dataframe_ok df' field os' Hne' Hos'), <- Hout.
  rewrite <- (group_keys_perm os os' Hpo). do 2 f_equal.
  apply map_ext. intros k. symmetry. by apply aggregate_perm.
Qed.

(** X11. The rows of a frame can come in any order: when
    [group_dataframe] returns for a frame, it returns the same summary,
    row for row, for every rearrangement of that frame. *)
Theorem group_dataframe_any_order (dataframe dataframe' : list dict)
  (grouping_field : string) (out : list SummaryRow) :
  dataframe ≡ₚ dataframe' ->
  group_dataframe dataframe grouping_field = Ok out ->
  group_dataframe dataframe' grouping_field = Ok out.
Proof. apply group_dataframe_perm. Qed.

Lemma group_dataframe_any_order_witness :
  group_dataframe (reverse sample_frame) "username"
  = Ok [mkSummaryRow "alice" 2 "2023-01-02T10:00:00.000Z"
          "https://twitter.com/robotventures/status/20";
        mkSummaryRow "bob" 1 "2023-01-01T12:00:00.000Z"
          "https://twitter.com/robotventures/status/15"].
Proof.
  apply (group_dataframe_any_order sample_frame (reverse sample_frame)
           "username").
  - symmetry. apply reverse_Permutation.
  - vm_compute. reflexivity.
Defined.

Section Lines.
Context `{Codecs}.

(** X8. A line that decodes to a JSON value other than an object (a
    list, a string, a number, [true], [null]) ends the run with the
    [AttributeError] of [data.get] and nothing is written, the lines
    before it having gone through. *)
Theorem process_results_not_an_object (fs : FS) (pre post : list string)
  (row : string) (v : pyval) :
  fs !! DATAPATH = Some (pre ++ row :: post)%list ->
  json_loads row = Some v ->
  (forall d, v <> PDict d) ->
  Forall (fun r => exists o, row_outcome r = Ok o) pre ->
  process_results fs = (Raise AttributeError, fs).
Proof.
  intros Hfs Hrow Hv Hpre. eapply process_results_raise; [done|].
  apply read_rows_raise; [done|].
  unfold row_outcome, loads. rewrite Hrow. simpl.
  destruct v; try done. by destruct (Hv d).
Qed.

(** X9. A line that decodes to an object without [created_at], or
    without [id], ends the run with [KeyError] and nothing is written,
    whatever its [entities] are, the lines before it having gone
    through. *)
Theorem process_results_missing_field (fs : FS) (pre post : list string)
  (row : string) (d : dict) :
  fs !! DATAPATH = Some (pre ++ row :: post)%list ->
  json_loads row = Some (PDict d) ->
  dict_lookup "created_at" d = None \/ dict_lookup "id" d = None ->
  Forall (fun r => exists o, row_outcome r = Ok o) pre ->
  process_results fs = (Raise KeyError, fs).
Proof.
  intros Hfs Hrow Hmiss Hpre. eapply process_results_raise; [done|].
  apply read_rows_raise; [done|].
  unfold row_outcome, loads. rewrite Hrow. simpl.
  unfold process_row. cbn [py_get py_item]. simpl.
  destruct (dict_lookup "created_at" d) as [c|]; [|done]. simpl.
  destruct Hmiss as [?| ->]; done.
Qed.

Lemma process_results_untouched (fs : FS) :
  (forall p, p <> MENTION_PATH -> p <> ANNOTATION_PATH ->
             (process_results fs).2 !! p = fs !! p)
  /\ (forall e, (process_results fs).1 = Raise e ->
                (process_results fs).2 = fs).
Proof.
  unfold process_results.
  destruct (fs !! DATAPATH) as [rows|]; [|done].
  destruct (summaries rows) as [[m a]|e|]; [|done..]. simpl.
  split; [|done]. intros p Hm Ha. by rewrite !lookup_insert_ne.
Qed.


(** ** Logs as the API writes them *)

Lemma occurrence_mention_of c i m :
  str_or_missing "username" m ->
  is_Some (occurrence "username" (mention_of (PStr c) (PStr i) m)).
Proof.
  intros [Hm|[s Hm]]; unfold occurrence, str_cell, mention_of; simpl;
    rewrite Hm; by eexists.
Qed.

Lemma occurrence_annotation_of c i a :
  str_or_missing "normalized_text" a ->
  is_Some (occurrence "normalized_text"
             (annotation_of (PStr c) (PStr i) a)).
Proof.
  intros [Ha|[s Ha]]; unfold occurrence, str_cell, annotation_of; simpl;
    rewrite Ha; by eexists.
Qed.

Lemma occurrences_is_Some field df :
  Forall (fun r => is_Some (occurrence field r)) df ->
  exists os, occurrences field df = Some os.
Proof.
  induction 1 as [|r df [o Ho] _ [os IH]]; simpl; [by eexists|].
  rewrite Ho, IH. by eexists.
Qed.

(** Reading a log of API records: one row per mention and annotation,
    each with [str] cells. *)
Lemma read_rows_decodes rows recs :
  decodes_to rows recs ->
  forall ms anns,
  exists M A,
    read_rows rows ms anns = Ok (ms ++ M, anns ++ A)
    /\ length M = length (concat recs.*1)
    /\ length A = length (concat recs.*2)
    /\ Forall (fun r => is_Some (occurrence "username" r)) M
    /\ Forall (fun r => is_Some (occurrence "normalized_text" r)) A.
Proof.
  induction 1 as [|row [ms0 anns0] rows recs Hrow _ IH]; intros ms anns.
  { exists [], []. rewrite !app_nil_r. by repeat split. }
  destruct Hrow as (d & Hloads & c & i & Hrec & Hms & Hanns).
  simpl in Hrec, Hms, Hanns.
  rewrite read_rows_cons. unfold row_outcome, loads. rewrite Hloads.
  simpl. rewrite (process_row_entities d _ _ ms0 anns0 Hrec). simpl.
  destruct (IH (ms ++ (mention_of (PStr c) (PStr i) <$> ms0))
               (anns ++ (annotation_of (PStr c) (PStr i) <$> anns0)))
    as (M & A & -> & HM & HA & HoM & HoA).
  exists ((mention_of (PStr c) (PStr i) <$> ms0) ++ M),
         ((annotation_of (PStr c) (PStr i) <$> anns0) ++ A).
  rewrite !app_assoc. split; [done|].
  simpl in HM, HA. rewrite !length_app, !length_fmap, HM, HA.
  repeat split; try done.
  - apply Forall_app. split; [|done]. apply Forall_fmap.
    eapply Forall_impl; [exact Hms|]. intros m. apply occurrence_mention_of.
  - apply Forall_app. split; [|done]. apply Forall_fmap.
    eapply Forall_impl; [exact Hanns|]. intros a.
    apply occurrence_annotation_of.
Qed.

(** X12. On a log of API records that holds at least one mention and at
    least one annotation, [process_results] returns and writes the two
    summaries, and the counts of each summary add up to the number of
    mentions, respectively annotations, of the whole log. *)
Theorem process_results_api_log (fs : FS) (rows : list string)
  (recs : list (list dict * list dict)) :
  fs !! DATAPATH = Some rows ->
  decodes_to rows recs ->
  concat recs.*1 <> [] ->
  concat recs.*2 <> [] ->
  exists m a,
    process_results fs
    = (Ok tt,
       <[ANNOTATION_PATH := to_csv "normalized_text" a]>
         (<[MENTION_PATH := to_csv "username" m]> fs))
    /\ sum_list_with count m = length (concat recs.*1)
    /\ sum_list_with count a = length (concat recs.*2).
Proof.
  intros Hfs Hdec Hm Ha.
  destruct (read_rows_decodes rows recs Hdec [] [])
    as (M & A & Hread & HM & HA & HoM & HoA).
  simpl in Hread.
  destruct (occurrences_is_Some _ _ HoM) as [osM HosM].
  destruct (occurrences_is_Some _ _ HoA) as [osA HosA].
  assert (M <> []) as HneM.
  { intros ->. simpl in HM. by destruct (concat recs.*1). }
  assert (A <> []) as HneA.
  { intros ->. simpl in HA. by destruct (concat recs.*2). }
  destruct (group_dataframe_rows M "username" osM HneM HosM)
    as (m & Hgm & _ & _ & _ & Hsm & _).
  destruct (group_dataframe_rows A "normalized_text" osA HneA HosA)
    as (a & Hga & _ & _ & _ & Hsa & _).
  exists m, a. unfold process_results, summaries.
  rewrite Hfs, Hread. simpl. rewrite Hgm. simpl. rewrite Hga. simpl.
  split; [done|]. split; congruence.
Qed.

(** X13. On a log of API records without a single mention, or without
    a single annotation, [process_results] ends with the [KeyError] of
    [groupby] and writes no file. *)
Theorem process_results_nothing_to_group (fs : FS) (rows : list string)
  (recs : list (list dict * list dict)) :
  fs !! DATAPATH = Some rows ->
  decodes_to rows recs ->
  concat recs.*1 = [] \/ concat recs.*2 = [] ->
  process_results fs = (Raise KeyError, fs).
Proof.
  intros Hfs Hdec Hnone.
  destruct (read_rows_decodes rows recs Hdec [] [])
    as (M & A & Hread & HM & HA & HoM & HoA).
  simpl in Hread. unfold process_results, summaries.
  rewrite Hfs, Hread. simpl.
  destruct M as [|r M]; [done|].
  destruct Hnone as [Hnone|Hnone]; [by rewrite Hnone in HM|].
  destruct (occurrences_is_Some _ _ HoM) as [osM HosM].
  rewrite (group_dataframe_ok (r :: M) "username" osM) by done. simpl.
  rewrite Hnone in HA. by destruct A.
Qed.

(** ** Lines in another order *)

Lemma read_rows_shift rows : forall ms anns M A,
  read_rows rows ms anns = Ok (M, A) ->
  exists M0 A0,
    M = (ms ++ M0)%list /\ A = (anns ++ A0)%list
    /\ forall ms' anns',
         read_rows rows ms' anns' = Ok (ms' ++ M0, anns' ++ A0).
Proof.
  induction rows as [|row rows IH]; intros ms anns M A Hr.
  - injection Hr as <- <-. exists [], []. rewrite !app_nil_r.
    repeat split. intros ms' anns'. by rewrite !app_nil_r.
  - rewrite read_rows_cons in Hr.
    destruct (row_outcome row) as [[m a]|e|] eqn:Hout; [|done..].
    simpl in Hr. destruct (IH _ _ _ _ Hr) as (M0 & A0 & -> & -> & Hall).
    exists (m ++ M0), (a ++ A0). rewrite !app_assoc. repeat split.
    intros ms' anns'. rewrite read_rows_cons, Hout. simpl.
    by rewrite Hall, !app_assoc.
Qed.

Lemma read_rows_cons_Ok row rest ms anns m a :
  row_outcome row = Ok (m, a) ->
  read_rows (row :: rest) ms anns = read_rows rest (ms ++ m) (anns ++ a).
Proof. intros Hout. by rewrite read_rows_cons, Hout. Qed.

Lemma read_rows_cons_inv row rest ms anns M A :
  read_rows (row :: rest) ms anns = Ok (M, A) ->
  exists m a, row_outcome row = Ok (m, a)
              /\ read_rows rest (ms ++ m) (anns ++ a) = Ok (M, A).
Proof.
  rewrite read_rows_cons.
  destruct (row_outcome row) as [[m a]|e|]; [|done..].
  intros Hr. by exists m, a.
Qed.

Lemma read_rows_perm rows rows' : rows ≡ₚ rows' ->
  forall M A, read_rows rows [] [] = Ok (M, A) ->
  exists M' A', read_rows rows' [] [] = Ok (M', A') /\ M ≡ₚ M' /\ A ≡ₚ A'.
Proof.
  induction 1 as [|x l l' Hp IH|x y l|l1 l2 l3 Hp1 IH1 Hp2 IH2];
    intros M A Hr.
  - exists M, A. by repeat split.
  - apply read_rows_cons_inv in Hr as (m & a & Hx & Hr).
    destruct (read_rows_shift _ _ _ _ _ Hr) as (M0 & A0 & -> & -> & Hall).
    destruct (IH M0 A0) as (M' & A' & Hr' & HpM & HpA).
    { by rewrite (Hall [] []). }
    exists (m ++ M'), (a ++ A').
    destruct (read_rows_shift _ _ _ _ _ Hr') as (M1 & A1 & -> & -> & Hall').
    rewrite (read_rows_cons_Ok _ _ _ _ _ _ Hx), (Hall' ([] ++ m) ([] ++ a)).
    simpl in *. repeat split; by apply Permutation_app.
  - apply read_rows_cons_inv in Hr as (my & ay & Hy & Hr).
    apply read_rows_cons_inv in Hr as (mx & ax & Hx & Hr).
    destruct (read_rows_shift _ _ _ _ _ Hr) as (M0 & A0 & -> & -> & Hall).
    exists ((mx ++ my) ++ M0), ((ax ++ ay) ++ A0).
    rewrite (read_rows_cons_Ok _ _ _ _ _ _ Hx),
      (read_rows_cons_Ok _ _ _ _ _ _ Hy),
      (Hall (([] ++ mx) ++ my) (([] ++ ax) ++ ay)).
    simpl. repeat split; apply Permutation_app; try done;
      apply Permutation_app_comm.
  - destruct (IH1 M A Hr) as (M2 & A2 & Hr2 & ? & ?).
    destruct (IH2 M2 A2 Hr2) as (M3 & A3 & Hr3 & ? & ?).
    exists M3, A3. repeat split; [done|by etrans..].
Qed.

(** X14. The lines of the log can come in any order: when
    [process_results] returns on a log, it returns on every
    rearrangement of its lines and writes the same two summaries. *)
Theorem process_results_any_order (fs fs1 : FS) (rows rows' : list string) :
  fs !! DATAPATH = Some rows ->
  rows ≡ₚ rows' ->
  process_results fs = (Ok tt, fs1) ->
  exists fs2,
    process_results (<[DATAPATH := rows']> fs) = (Ok tt, fs2)
    /\ fs2 !! MENTION_PATH = fs1 !! MENTION_PATH
    /\ fs2 !! ANNOTATION_PATH = fs1 !! ANNOTATION_PATH.
Proof.
  intros Hfs Hp (rows0 & m & a & Hrows & Hsum & ->)%process_results_ok.
  rewrite Hfs in Hrows. injection Hrows as <-.
  unfold summaries in Hsum.
  destruct (read_rows rows [] []) as [[M A]|e|] eqn:Hread; [|done..].
  simpl in Hsum.
  destruct (group_dataframe M "username") as [m0|e|] eqn:Hgm; [|done..].
  simpl in Hsum.
  destruct (group_dataframe A "normalized_text") as [a0|e|] eqn:Hga;
    [|done..].
  injection Hsum as -> ->.
  destruct (read_rows_perm rows rows' Hp M A Hread)
    as (M' & A' & Hread' & HpM & HpA).
  eexists. unfold process_results, summaries.
  rewrite lookup_insert_eq, Hread'. simpl.
  rewrite (group_dataframe_perm M M' _ m HpM Hgm). simpl.
  rewrite (group_dataframe_perm A A' _ a HpA Hga). simpl.
  destruct paths_distinct as (Hmd & Had & Ham).
  split; [done|]. rewrite !lookup_insert_eq.
  by rewrite !(lookup_insert_ne _ ANNOTATION_PATH MENTION_PATH),
      !lookup_insert_eq.
Qed.

End Lines.

(** Discharges [exists d, json_loads row = Some (PDict d) /\ api_record ...]
    on a sample line. *)
Local Ltac decoded :=
  eexists; split; [reflexivity|];
  eexists _, _; split;
  [eexists; repeat split; reflexivity
  |split; simpl;
   repeat (apply List.Forall_cons; [right; eexists; reflexivity|]);
   apply List.Forall_nil].

(** The sample log decodes to API records. *)
Lemma sample_log_decodes :
  @decodes_to sample_codecs ["tweet 10"; "tweet 20"; "tweet 30"]
    [([[("start", PInt 0); ("end", PInt 6); ("username", PStr "alice")]],
      []);
     ([[("username", PStr "alice")]],
      [[("type", PStr "Other"); ("normalized_text", PStr "rust")]]);
     ([], [])].
Proof.
  unfold decodes_to.
  repeat (apply List.Forall2_cons; [decoded|]). apply List.Forall2_nil.
Qed.

Lemma process_results_api_log_witness :
  exists m a,
    @process_results sample_codecs
      (log_of ["tweet 10"; "tweet 20"; "tweet 30"])
    = (Ok tt,
       <[ANNOTATION_PATH := plain_csv "normalized_text" a]>
         (<[MENTION_PATH := plain_csv "username" m]>
            (log_of ["tweet 10"; "tweet 20"; "tweet 30"])))
    /\ sum_list_with count m = 2%nat
    /\ sum_list_with count a = 1%nat.
Proof.
  apply (@process_results_api_log sample_codecs
           (log_of ["tweet 10"; "tweet 20"; "tweet 30"])
           ["tweet 10"; "tweet 20"; "tweet 30"] _ eq_refl
           sample_log_decodes); discriminate.
Defined.

Lemma process_results_nothing_to_group_witness :
  @process_results sample_codecs (log_of ["tweet 10"; "tweet 30"])
  = (Raise KeyError, log_of ["tweet 10"; "tweet 30"]).
Proof.
  apply (@process_results_nothing_to_group sample_codecs
           (log_of ["tweet 10"; "tweet 30"]) ["tweet 10"; "tweet 30"]
           [([[("start", PInt 0); ("end", PInt 6);
               ("username", PStr "alice")]], []);
            ([], [])]);
    [reflexivity| |by right].
  unfold decodes_to.
  repeat (apply List.Forall2_cons; [decoded|]). apply List.Forall2_nil.
Defined.

Lemma process_results_any_order_witness :
  let fs := log_of ["tweet 10"; "tweet 20"; "tweet 30"] in
  let fs1 := (@process_results sample_codecs fs).2 in
  exists fs2,
    @process_results sample_codecs
      (<[DATAPATH := ["tweet 30"; "tweet 20"; "tweet 10"]]> fs)
    = (Ok tt, fs2)
    /\ fs2 !! MENTION_PATH = fs1 !! MENTION_PATH
    /\ fs2 !! ANNOTATION_PATH = fs1 !! ANNOTATION_PATH.
Proof.
  apply (@process_results_any_order sample_codecs
           (log_of ["tweet 10"; "tweet 20"; "tweet 30"]) _
           ["tweet 10"; "tweet 20"; "tweet 30"]
           ["tweet 30"; "tweet 20"; "tweet 10"]).
  - reflexivity.
  - exact (reverse_Permutation ["tweet 30"; "tweet 20"; "tweet 10"]).
  - vm_compute. reflexivity.
Defined.

Lemma process_results_not_an_object_witness :
  @process_results wide_codecs (log_of ["tweet 10"; "a list"; "tweet 20"])
  = (Raise AttributeError, log_of ["tweet 10"; "a list"; "tweet 20"]).
Proof.
  apply (@process_results_not_an_object wide_codecs
           (log_of ["tweet 10"; "a list"; "tweet 20"])
           ["tweet 10"] ["tweet 20"] "a list" (PList [tweet10]));
    [reflexivity|reflexivity|done|].
  repeat constructor. by eexists.
Defined.

Lemma process_results_missing_field_witness :
  @process_results wide_codecs (log_of ["tweet 10"; "no date"])
  = (Raise KeyError, log_of ["tweet 10"; "no date"]).
Proof.
  apply (@process_results_missing_field wide_codecs
           (log_of ["tweet 10"; "no date"]) ["tweet 10"] [] "no date"
           [("id", PStr "60"); ("entities", PDict [])]);
    [reflexivity|reflexivity|by left|].
  repeat constructor. by eexists.
Defined.


End AggregationExtra.

(** * fetch_results and main *)

Module ProgramFacts.
Import Pagination Aggregation Program.
Import PaginationFacts AggregationFacts PaginationExtra AggregationExtra.
Local Open Scope list_scope.

(** ** Writing lines *)

Lemma append_assoc (a b c : string) : (a +:+ b) +:+ c = a +:+ (b +:+ c).
Proof.
  induction a as [|x a IH]; [done|].
  change (String x ((a +:+ b) +:+ c) = String x (a +:+ (b +:+ c))).
  by rewrite IH.
Qed.

Lemma append_nil_r (a : string) : a +:+ "" = a.
Proof.
  induction a as [|x a IH]; [done|].
  change (String x (a +:+ "") = String x a). by rewrite IH.
Qed.

Lemma content_cons l lines : content (l :: lines) = l +:+ content lines.
Proof. reflexivity. Qed.

Lemma content_write_line lines text :
  content (write_line lines text) = content lines +:+ text.
Proof.
  induction lines as [|l rest IH]; [apply append_nil_r|].
  destruct rest as [|l' rest].
  - cbn [write_line]. destruct (ends_with_newline l);
      rewrite !content_cons; cbn [content fold_right];
      by rewrite ?append_nil_r.
  - change (write_line (l :: l' :: rest) text)
      with (l :: write_line (l' :: rest) text).
    by rewrite content_cons, IH, (content_cons l), append_assoc.
Qed.

Lemma write_line_length lines text :
  (length (write_line lines text) <= S (length lines))%nat.
Proof.
  induction lines as [|l rest IH]; simpl; [lia|].
  destruct rest as [|l' rest]; [destruct (ends_with_newline l); simpl; lia|].
  simpl in *. lia.
Qed.

Lemma ends_with_newline_append s : ends_with_newline (s +:+ newline) = true.
Proof.
  induction s as [|c s IH]; [done|].
  simpl. destruct (s +:+ newline) eqn:Hs; [|done].
  by destruct s.
Qed.

Lemma terminated_snoc lines text :
  ends_with_newline text = true -> terminated (lines ++ [text]).
Proof. intros Ht l. rewrite last_snoc. by intros [= <-]. Qed.

Lemma write_line_terminated lines text :
  terminated lines -> write_line lines text = lines ++ [text].
Proof.
  intros Hterm. induction lines as [|l rest IH]; [done|].
  simpl. destruct rest as [|l' rest].
  - rewrite (Hterm l); done.
  - simpl. f_equal. apply IH. intros x Hx. apply Hterm.
    by rewrite last_cons, Hx.
Qed.

Section Writing.
Context `{Encoder}.

Lemma written_content ys : forall file,
  content (written file ys) = content file +:+ content (dumped ys).
Proof.
  induction ys as [|y ys IH]; intros file; simpl.
  - by rewrite append_nil_r.
  - unfold written in *. simpl. rewrite IH, content_write_line.
    by rewrite !append_assoc.
Qed.

Lemma written_length ys : forall file,
  (length (written file ys) <= length file + length ys)%nat.
Proof.
  induction ys as [|y ys IH]; intros file; simpl; [lia|].
  unfold written in *. simpl.
  pose proof (IH (write_line file (json_dumps y +:+ newline))).
  pose proof (write_line_length file (json_dumps y +:+ newline)). lia.
Qed.

Lemma written_terminated ys : forall file,
  terminated file -> written file ys = file ++ dumped ys.
Proof.
  induction ys as [|y ys IH]; intros file Hterm; simpl.
  - by rewrite app_nil_r.
  - unfold written in *. simpl. rewrite write_line_terminated by done.
    rewrite IH.
    + by rewrite <- app_assoc.
    + apply terminated_snoc, ends_with_newline_append.
Qed.

(** X15. [fetch_results] only appends to the log: the characters of the
    file after the call are those it had, none if it was not there,
    followed by one terminated line for each dict yielded, in order;
    when the old file ended with a line feed, or was empty or missing,
    its lines are all kept and the new ones follow; and no other file
    is touched.  This holds however the generator ends, also when it
    raises. *)
Theorem fetch_results_appends (fuel : nat) (api : string -> Upstream)
  (user_id : string) (max_result_count : Z) (fs : FS) :
  let ys := yielded (search_tweets fuel (api user_id) max_result_count) in
  let old := from_option id [] (fs !! DATAPATH) in
  let fs' := (fetch_results fuel api user_id max_result_count fs).2 in
  exists file',
    fs' !! DATAPATH = Some file'
    /\ content file' = content old +:+ content (dumped ys)
    /\ (length file' <= length old + length ys)%nat
    /\ (terminated old -> file' = old ++ dumped ys)
    /\ forall p, p <> DATAPATH -> fs' !! p = fs !! p.
Proof.
  intros ys old fs'. exists (written old ys). subst fs'.
  unfold fetch_results. cbn [snd]. rewrite lookup_insert_eq.
  split; [done|]. split; [apply written_content|].
  split; [apply written_length|].
  split; [apply written_terminated|].
  intros p Hp. by rewrite lookup_insert_ne.
Qed.

Lemma loop_yield_total client result_count fuel :
  1 <= result_count ->
  within_page_size client result_count ->
  Z.of_nat (length (yielded (search_tweets fuel client result_count)))
  <= result_count + max_results result_count - 1.
Proof.
  intros Hrc Hsize.
  pose proof (loop_yield_bound client result_count fuel Hrc Hsize
                0%nat initial) as Hb.
  simpl in Hb. unfold search_tweets. lia.
Qed.

End Writing.

Section Main.
Context `{Codecs} `{Encoder}.

Lemma main_log_after_fetch fuel api process_data (fs : FS) :
  (main fuel api true process_data fs).2 !! DATAPATH
  = (fetch_results fuel api USER_ID MAX_RESULT_COUNT fs).2 !! DATAPATH.
Proof.
  unfold main.
  destruct (fetch_results fuel api USER_ID MAX_RESULT_COUNT fs)
    as [[[[]|e|]|] fs1]; try done.
  destruct process_data; [|done].
  pose proof (proj1 (process_results_untouched fs1) DATAPATH) as Hlog.
  destruct (process_results fs1) as [o fs2]. simpl in *.
  by apply Hlog.
Qed.

(** X16. With the constants of the program, a budget of 2000 tweets in
    pages of 100, and an upstream that keeps to that page size, a call
    of [main] that fetches adds at most 2099 lines to the log, the
    processing that may follow adding none. *)
Theorem main_fetch_quota (fuel : nat) (api : string -> Upstream)
  (process_data : bool) (fs : FS) :
  within_page_size (api USER_ID) MAX_RESULT_COUNT ->
  exists file',
    (main fuel api true process_data fs).2 !! DATAPATH = Some file'
    /\ (length file'
        <= length (from_option id [] (fs !! DATAPATH)) + 2099)%nat.
Proof.
  intros Hsize. rewrite main_log_after_fetch.
  unfold fetch_results. cbn [snd]. rewrite lookup_insert_eq.
  eexists. split; [done|].
  pose proof (written_length
                (yielded (search_tweets fuel (api USER_ID) MAX_RESULT_COUNT))
                (from_option id [] (fs !! DATAPATH))) as Hw.
  pose proof (loop_yield_total (api USER_ID) MAX_RESULT_COUNT fuel
                ltac:(done) Hsize) as Hy.
  change (MAX_RESULT_COUNT + max_results MAX_RESULT_COUNT - 1) with 2099
    in Hy.
  lia.
Qed.

(** X17. [main] without [fetch_data] leaves the log as it is; [main]
    without [process_data] leaves every file but the log as it is; and
    with neither it returns at once. *)
Theorem main_frame (fuel : nat) (api : string -> Upstream) (fs : FS) :
  (forall process_data,
     (main fuel api false process_data fs).2 !! DATAPATH = fs !! DATAPATH)
  /\ (forall fetch_data p,
        p <> DATAPATH ->
        (main fuel api fetch_data false fs).2 !! p = fs !! p)
  /\ main fuel api false false fs = (Some (Ok tt), fs).
Proof.
  split; [|split; [|done]].
  - intros [|]; [|done]. unfold main.
    pose proof (proj1 (process_results_untouched fs) DATAPATH) as Hlog.
    destruct (process_results fs) as [o fs2]. simpl in *. by apply Hlog.
  - intros [|] p Hp; [|done]. unfold main, fetch_results.
    destruct (ending _) as [[[]|e|]|]; simpl; by rewrite lookup_insert_ne.
Qed.

(** X18. When an exception leaves the page loop during the fetch,
    [main] raises it with the lines fetched so far in the log, and the
    processing is not run: no other file changes. *)
Theorem main_fetch_raises (fuel : nat) (api : string -> Upstream)
  (process_data : bool) (fs : FS) (e : exn) :
  stop (search_tweets fuel (api USER_ID) MAX_RESULT_COUNT)
  = Some (Uncaught e) ->
  main fuel api true process_data fs
  = (Some (Raise e),
     (fetch_results fuel api USER_ID MAX_RESULT_COUNT fs).2)
  /\ forall p, p <> DATAPATH ->
       (main fuel api true process_data fs).2 !! p = fs !! p.
Proof.
  intros Hs. unfold main, fetch_results. rewrite Hs. simpl.
  split; [done|]. intros p Hp. by rewrite lookup_insert_ne.
Qed.

(** X19. When the fetch returns without a single dict and there was no
    log, or an empty one, [main] with both flags leaves an empty log
    and ends with the [KeyError] of the processing. *)
Theorem main_nothing_fetched (fuel : nat) (api : string -> Upstream)
  (fs : FS) :
  from_option id [] (fs !! DATAPATH) = [] ->
  yielded (search_tweets fuel (api USER_ID) MAX_RESULT_COUNT) = [] ->
  ending (stop (search_tweets fuel (api USER_ID) MAX_RESULT_COUNT))
  = Some (Ok tt) ->
  main fuel api true true fs
  = (Some (Raise KeyError), <[DATAPATH := []]> fs).
Proof.
  intros Hold Hys Hend. unfold main, fetch_results.
  rewrite Hold, Hys, Hend. cbn [written fold_left].
  unfold process_results. by rewrite lookup_insert_eq.
Qed.

(** X20. Every dict yielded is a line of the log after the fetch (the
    old log ending with a line feed, or being empty or missing); and if
    [json.loads] reads that line back as the dict, [process_results]
    takes from the line what it would take from the tweet as the
    upstream sent it, the rows or the exception. *)
Theorem fetched_line_read_back (fuel : nat) (api : string -> Upstream)
  (user_id : string) (max_result_count : Z) (fs : FS) (y : dict) :
  let r := search_tweets fuel (api user_id) max_result_count in
  let line := json_dumps y +:+ newline in
  y ∈ yielded r ->
  terminated (from_option id [] (fs !! DATAPATH)) ->
  json_loads line = Some (PDict y) ->
  (exists file',
     (fetch_results fuel api user_id max_result_count fs).2 !! DATAPATH
     = Some file' /\ line ∈ file')
  /\ exists j st results d,
       requests r !! j = Some st
       /\ data (api user_id j (max_results max_result_count)
                  (pagination_token st)) = DataList results
       /\ Tweet d ∈ results
       /\ row_outcome line = process_row (PDict d).
Proof.
  intros r line Hy Hterm Hloads. split.
  - unfold fetch_results. cbn [snd]. rewrite lookup_insert_eq.
    eexists. split; [done|]. rewrite written_terminated by done.
    apply elem_of_app. right. unfold dumped.
    apply (list_elem_of_fmap_2 (fun data => json_dumps data +:+ newline)).
    done.
  - destruct (loop_yield_elem (api user_id) max_result_count fuel 0%nat
                initial y Hy)
      as (j & st & t & results & d & Hj & _ & Hd & Hmem & Heq).
    exists j, st, results, d. repeat split; try done.
    unfold row_outcome, loads. rewrite Hloads. simpl.
    rewrite Heq. apply process_row_stamped.
Qed.

End Main.

(** A first run against [timeline]: the tweet is fetched, written,
    read back and summarised. *)
Example main_timeline :
  @main stamped_codecs sample_encoder 3 timeline true true ∅
  = (Some (Ok tt),
     {[ DATAPATH := ["tweet 20" +:+ newline];
        MENTION_PATH :=
          ["username,count,last_tweeted_at,last_tweet_url";
           "alice,1,2023-01-02T10:00:00.000Z,https://twitter.com/robotventures/status/20"];
        ANNOTATION_PATH :=
          ["normalized_text,count,last_tweeted_at,last_tweet_url";
           "rust,1,2023-01-02T10:00:00.000Z,https://twitter.com/robotventures/status/20"] ]}).
Proof. vm_compute. reflexivity. Qed.

Lemma main_fetch_quota_witness :
  exists file',
    (@main stamped_codecs sample_encoder 3 timeline true true ∅).2
      !! DATAPATH = Some file'
    /\ (length file'
        <= length (from_option id [] ((∅ : FS) !! DATAPATH)) + 2099)%nat.
Proof.
  apply (@main_fetch_quota stamped_codecs sample_encoder 3 timeline true ∅).
  intros n tok results [= <-]. vm_compute. discriminate.
Defined.

Lemma main_fetch_raises_witness :
  @main sample_codecs sample_encoder 3 no_data true true ∅
  = (Some (Raise TypeError),
     (@fetch_results sample_encoder 3 no_data USER_ID MAX_RESULT_COUNT ∅).2)
  /\ forall p, p <> DATAPATH ->
       (@main sample_codecs sample_encoder 3 no_data true true ∅).2 !! p
       = (∅ : FS) !! p.
Proof.
  apply (@main_fetch_raises sample_codecs sample_encoder 3 no_data true ∅
           TypeError).
  vm_compute. reflexivity.
Defined.

Lemma main_nothing_fetched_witness :
  @main sample_codecs sample_encoder 3 silent true true ∅
  = (Some (Raise KeyError), <[DATAPATH := []]> ∅).
Proof.
  apply (@main_nothing_fetched sample_codecs sample_encoder 3 silent ∅);
    vm_compute; reflexivity.
Defined.

Lemma fetched_line_read_back_witness :
  let y := dict_set "next_token" PNone timeline_tweet in
  let line := "tweet 20" +:+ newline in
  (exists file',
     (@fetch_results sample_encoder 3 timeline "" 10 ∅).2 !! DATAPATH
     = Some file' /\ line ∈ file')
  /\ exists j st results d,
       requests (search_tweets 3 (timeline "") 10) !! j = Some st
       /\ data (timeline "" j (max_results 10) (pagination_token st))
          = DataList results
       /\ Tweet d ∈ results
       /\ @row_outcome stamped_codecs line = process_row (PDict d).
Proof.
  apply (@fetched_line_read_back stamped_codecs sample_encoder 3 timeline
           "" 10 ∅ (dict_set "next_token" PNone timeline_tweet)).
  - vm_compute. apply list_elem_of_here.
  - intros l. vm_compute. discriminate.
  - vm_compute. reflexivity.
Defined.

Lemma fetch_results_appends_witness :
  let ys := yielded (search_tweets 3 (timeline "") 10) in
  let old := from_option id [] ((∅ : FS) !! DATAPATH) in
  let fs' := (@fetch_results sample_encoder 3 timeline "" 10 ∅).2 in
  exists file',
    fs' !! DATAPATH = Some file'
    /\ content file' = content old +:+ content (@dumped sample_encoder ys)
    /\ (length file' <= length old + length ys)%nat
    /\ (terminated old -> file' = old ++ @dumped sample_encoder ys)
    /\ forall p, p <> DATAPATH -> fs' !! p = (∅ : FS) !! p.
Proof. apply (@fetch_results_appends sample_encoder 3 timeline "" 10 ∅). Defined.

Lemma main_frame_witness :
  (@main sample_codecs sample_encoder 3 timeline false true
     (log_of ["tweet 10"; "tweet 20"])).2 !! DATAPATH
  = log_of ["tweet 10"; "tweet 20"] !! DATAPATH.
Proof.
  apply (proj1 (@main_frame sample_codecs sample_encoder 3 timeline
                  (log_of ["tweet 10"; "tweet 20"])) true).
Defined.

End ProgramFacts.
